(** * proto-launcher: the ranking engine, the keyword indexer, the query
      editor and the configuration store of [launcher.cpp]

    The development embeds the pure core of [launcher.cpp] in Rocq.  The
    X11 layer (window, fonts, drawing) is left out; what remains is

    - [search]           the ranking of the applications against the query,
    - [getApplications]  the part that turns a desktop entry into keywords,
    - [onKeyPress]       the editing of the query and of the cursor,
    - [readConfig] / [writeConfig]   the launch counts and the style.

    C++ [int] values are integers of [Z] with the 32-bit two's complement
    wrap-around written out ([Int.wrap]); [size_t] values are integers
    modulo 2^64 ([Size.wrap]).  A [std::string] is a [string]; positions in
    it are [size_t] values.  Code that can throw returns a [result]. *)

From Stdlib Require Import ZArith List Lia Bool Ascii String.
From Stdlib Require Import Permutation Sorted.
Import ListNotations.

Local Open Scope string_scope.
Local Open Scope Z_scope.

(* ================================================================== *)
(** ** Machine integers *)

(** [int]: 32 bits, signed.  Signed overflow has no defined behaviour in
    C++; the model wraps, and the theorems that speak about a value state
    that the computation stays in range. *)
Module Int.
Definition min_value : Z := -2147483648.
Definition max_value : Z := 2147483647.

Definition in_range (z : Z) : Prop := min_value <= z <= max_value.

Definition wrap (z : Z) : Z := (z + 2147483648) mod 4294967296 - 2147483648.

Definition add (a b : Z) : Z := wrap (a + b).
Definition sub (a b : Z) : Z := wrap (a - b).
Definition mul (a b : Z) : Z := wrap (a * b).
End Int.

(** [size_t]: 64 bits, unsigned.  [Size.npos] is [std::string::npos]. *)
Module Size.
Definition modulus : Z := 18446744073709551616.
Definition npos : Z := 18446744073709551615.
Definition wrap (z : Z) : Z := z mod modulus.
End Size.

(* ================================================================== *)
(** ** Exceptions *)

Inductive exception : Type :=
| out_of_range
| invalid_argument.

Inductive result (A : Type) : Type :=
| Ok (a : A)
| Throw (e : exception).

Arguments Ok {A} a.
Arguments Throw {A} e.

Definition bind {A B : Type} (r : result A) (k : A -> result B) : result B :=
  match r with
  | Ok a => k a
  | Throw e => Throw e
  end.

Notation "x <- r ;; k" := (bind r (fun x => k))
  (at level 61, r at next level, right associativity).

(* ================================================================== *)
(** ** std::string *)

Module Str.

(** A string held in memory is shorter than 2^64 characters, so its
    size and the positions in it are [size_t] values as they stand. *)
Definition size (s : string) : Z := Z.of_nat (String.length s).

(** First position at or after the start of [s] where [q] occurs,
    counted from [pos]. *)
Fixpoint find_at (s q : string) (pos : nat) : option nat :=
  if prefix q s then Some pos
  else match s with
       | EmptyString => None
       | String _ s' => find_at s' q (S pos)
       end.

(** [s.find(q)]: the position of the first occurrence, or [npos]. *)
Definition find (s q : string) : Z :=
  match find_at s q 0 with
  | Some p => Z.of_nat p
  | None => Size.npos
  end.

Fixpoint mem (c : ascii) (chars : string) : bool :=
  match chars with
  | EmptyString => false
  | String d rest => Ascii.eqb c d || mem c rest
  end.

Fixpoint find_last_of_at (s chars : string) (pos : nat) : option nat :=
  match s with
  | EmptyString => None
  | String c s' =>
      match find_last_of_at s' chars (S pos) with
      | Some p => Some p
      | None => if mem c chars then Some pos else None
      end
  end.

(** [s.find_last_of(chars)]. *)
Definition find_last_of (s chars : string) : Z :=
  match find_last_of_at s chars 0 with
  | Some p => Z.of_nat p
  | None => Size.npos
  end.

(** [s.substr(pos, n)]: throws when [pos > size()], and stops at the end
    of the string. *)
Definition substr (s : string) (pos n : Z) : result string :=
  if size s <? pos then Throw out_of_range
  else Ok (substring (Z.to_nat pos) (Z.to_nat (Z.min n (size s - pos))) s).

(** [s.substr(pos)]: the count is [npos] then, and no string is longer
    than that. *)
Definition substr_from (s : string) (pos : Z) : result string :=
  if size s <? pos then Throw out_of_range
  else Ok (substring (Z.to_nat pos) (Z.to_nat (size s - pos)) s).

(** [s.erase(pos, n)]. *)
Definition erase (s : string) (pos n : Z) : result string :=
  if size s <? pos then Throw out_of_range
  else
    let k := Z.min n (size s - pos) in
    Ok (substring 0 (Z.to_nat pos) s
        ++ substring (Z.to_nat (pos + k)) (Z.to_nat (size s - pos - k)) s).

(** The characters of a [char] buffer up to the first NUL: what the
    conversion of a [char*] to [std::string] keeps. *)
Fixpoint c_str (buf : string) : string :=
  match buf with
  | EmptyString => EmptyString
  | String c rest => if Ascii.eqb c zero then EmptyString else String c (c_str rest)
  end.

(** [::tolower] in the "C" locale (the program never calls
    [setlocale]). *)
Definition tolower (c : ascii) : ascii :=
  let n := nat_of_ascii c in
  if (65 <=? n)%nat && (n <=? 90)%nat then ascii_of_nat (n + 32) else c.

Fixpoint map (f : ascii -> ascii) (s : string) : string :=
  match s with
  | EmptyString => EmptyString
  | String c rest => String (f c) (map f rest)
  end.

End Str.

(** [lowercase], line 94. *)
Definition lowercase (str : string) : string := Str.map Str.tolower str.

(* ================================================================== *)
(** ** Data model (lines 20-39) *)

Inductive StyleAttribute : Type :=
| C_TITLE | C_COMMENT | C_BG | C_HIGHLIGHT | C_MATCH
| F_REGULAR | F_BOLD | F_SMALLREGULAR | F_SMALLBOLD | F_LARGE.

Record Keyword : Type := mkKeyword {
  word : string;
  weight : Z
}.

Record Application : Type := mkApplication {
  id : string;
  name : string;
  genericName : string;
  comment : string;
  cmd : string;
  keywords : list Keyword;
  count : Z
}.

(** A [Result] points to an element of the vector [applications]; the
    pointer is modelled by the position of that element. *)
Record Result : Type := mkResult {
  app : nat;
  score : Z
}.

(* ================================================================== *)
(** ** search (lines 110-139) *)

(** The inner loop, lines 114-127: the score given to one application.
    [i] is the loop counter, [score] starts at 0 and is assigned at the
    first keyword that [find] locates the query in. *)
Fixpoint scan_keywords (queryi : string) (count : Z) (kws : list Keyword) (i : Z) : Z :=
  match kws with
  | [] => 0
  | keyword :: rest =>
      let matchIndex := Int.wrap (Str.find (word keyword) queryi) in
      if negb (Size.wrap matchIndex =? Size.npos) then
        Int.add
          (Int.mul (Int.mul (Int.sub 100 i) (weight keyword))
                   (if matchIndex =? 0 then 10000 else 100))
          count
      else scan_keywords queryi count rest (Int.add i 1)
  end.

Definition app_score (queryi : string) (a : Application) : Z :=
  scan_keywords queryi (count a) (keywords a) 0.

(** The outer loop, lines 113-131: [n] is the position of the first
    application of [apps] in the vector. *)
Fixpoint scan_from (n : nat) (queryi : string) (apps : list Application) : list Result :=
  match apps with
  | [] => []
  | a :: rest =>
      let score := app_score queryi a in
      (if 0 <? score then [mkResult n score] else [])
        ++ scan_from (S n) queryi rest
  end.

Definition scan (queryi : string) (applications : list Application) : list Result :=
  scan_from 0 queryi applications.

(** The comparison handed to [std::sort], line 133: [a] goes before [b]
    when [b.score < a.score]. *)
Definition before (a b : Result) : bool := score b <? score a.

(** [std::sort] promises a permutation of its input in which no element
    goes before an earlier one; the order of results with equal scores is
    left open.  [sort] stands for any function with that contract. *)
Definition sort_contract (sort : list Result -> list Result) : Prop :=
  forall l,
    Permutation (sort l) l
    /\ StronglySorted (fun a b => before b a = false) (sort l).

(** One such function: insertion. *)
Fixpoint insert_result (r : Result) (l : list Result) : list Result :=
  match l with
  | [] => [r]
  | x :: rest => if before x r then x :: insert_result r rest else r :: l
  end.

Fixpoint insertion_sort (l : list Result) : list Result :=
  match l with
  | [] => []
  | r :: rest => insert_result r (insertion_sort rest)
  end.

Section Search.

Variable sort : list Result -> list Result.

Definition search (queryi : string) (applications : list Application) : list Result :=
  if 0 <? Str.size queryi then
    let results := sort (scan queryi applications) in
    if 10 <? Z.of_nat (List.length results) then firstn 10 results else results
  else [].

End Search.

(* ================================================================== *)
(** ** getApplications (lines 258-303) *)

(** The loop [while (getline(stream, word, delim))] over a stream that
    holds [s]: the list of the words it hands to its body.  [word] is what
    has been read of the current word.  A word ends at a delimiter, which
    is taken from the stream and not stored; at the end of the stream the
    characters read so far make a last word, and a call that finds the
    stream at its end without reading a character fails and ends the loop. *)
Fixpoint getline_loop (delim : ascii) (s : string) (word : string) : list string :=
  match s with
  | EmptyString =>
      match word with
      | EmptyString => []
      | _ => [word]
      end
  | String c rest =>
      if Ascii.eqb c delim then word :: getline_loop delim rest ""
      else getline_loop delim rest (word ++ String c "")
  end.

Definition getlines (delim : ascii) (s : string) : list string :=
  getline_loop delim s "".

(** [line.find(key) == 0]. *)
Definition begins_with (line key : string) : bool := Str.find line key =? 0.

(** [line.substr(n)] behind a test [begins_with] on a key of [n]
    characters: the position is then within the line. *)
Definition after (n : nat) (line : string) : string :=
  substring n (String.length line - n) line.

Definition push_words (w : Z) (words : list string) (kws : list Keyword) : list Keyword :=
  (kws ++ List.map (fun x => mkKeyword x w) words)%list.

(** The body of the loop over the lines of a desktop entry, lines 268-286. *)
Definition parse_line (a : Application) (line : string) : Application :=
  let a :=
    if (name a =? "")%string && begins_with line "Name=" then
      mkApplication (id a) (after 5 line) (genericName a) (comment a) (cmd a)
        (keywords a) (count a)
    else a in
  let a :=
    if (genericName a =? "")%string && begins_with line "GenericName=" then
      mkApplication (id a) (name a) (after 12 line) (comment a) (cmd a)
        (keywords a) (count a)
    else a in
  let a :=
    if (comment a =? "")%string && begins_with line "Comment=" then
      mkApplication (id a) (name a) (genericName a) (after 8 line) (cmd a)
        (keywords a) (count a)
    else a in
  let a :=
    if (cmd a =? "")%string && begins_with line "Exec="
       && negb (after 5 line =? "")%string then
      mkApplication (id a) (name a) (genericName a) (comment a) (after 5 line)
        (keywords a) (count a)
    else a in
  if (cmd a =? "")%string && begins_with line "Keywords=" then
    mkApplication (id a) (name a) (genericName a) (comment a) (cmd a)
      (push_words 1 (getlines " " (lowercase (after 9 line))) (keywords a))
      (count a)
  else a.

(** Lines 289-298: the words of the name, then those of the generic name
    and the comment. *)
Definition name_words (a : Application) : list string :=
  getlines " " (lowercase (name a)).

Definition description_words (a : Application) : list string :=
  getlines " " (lowercase (genericName a ++ String " " (comment a))).

Definition index_keywords (a : Application) : Application :=
  mkApplication (id a) (name a) (genericName a) (comment a) (cmd a)
    (push_words 1 (description_words a) (push_words 1000 (name_words a) (keywords a)))
    (count a).

(** One directory entry: its path and the text of the file. *)
Definition read_entry (path content : string) : Application :=
  index_keywords
    (fold_left parse_line (getlines "010" content)
       (mkApplication path "" "" "" "" [] 0)).

(** The directories are read by the file system layer; [entries] is the
    sequence of files it yields, in the order of the loops. *)
Definition getApplications (entries : list (string * string)) : list Application :=
  List.map (fun e => read_entry (fst e) (snd e)) entries.

(* ================================================================== *)
(** ** onKeyPress (lines 334-381) and the body of the event loop *)

(** The globals that the key handler reads and writes. *)
Record State : Type := mkState {
  query : string;
  queryi : string;
  selected : Z;
  cursor : Z;
  results : list Result
}.

Inductive KeySym : Type :=
| XK_Escape | XK_Return | XK_Up | XK_Down | XK_Left | XK_Right
| XK_Home | XK_End | XK_BackSpace | XK_Delete
| XK_other.

(** What [Xutf8LookupString] reports for a key press: the key symbol, the
    bytes it stores in the zeroed buffer [text] and their number. *)
Record KeyEvent : Type := mkKeyEvent {
  keysym : KeySym;
  text : string;
  textlength : Z
}.

Inductive Outcome : Type :=
| Running (s : State)
| Exited
| Launched (selection : Z).

Definition set_cursor (s : State) (c : Z) : State :=
  mkState (query s) (queryi s) (selected s) c (results s).

Definition set_selected (s : State) (i : Z) : State :=
  mkState (query s) (queryi s) i (cursor s) (results s).

Definition set_query (s : State) (q : string) (c : Z) : State :=
  mkState q (queryi s) (selected s) c (results s).

(** The [switch] of lines 338-379.  Comparisons between an [int] and a
    [size_t] are made on the [size_t] values, and a conditional expression
    with an [int] and a [size_t] branch is a [size_t]. *)
Definition key_switch (ev : KeyEvent) (s : State) : result Outcome :=
  let size := Z.of_nat (List.length (results s)) in
  let length := Str.size (query s) in
  match keysym ev with
  | XK_Escape => Ok Exited
  | XK_Return => Ok (Launched (selected s))
  | XK_Up =>
      Ok (Running (set_selected s
            (Int.wrap (if 0 <? selected s
                       then Size.wrap (Int.sub (selected s) 1)
                       else Size.wrap (size - 1)))))
  | XK_Down =>
      Ok (Running (set_selected s
            (if Size.wrap (selected s) <? Size.wrap (size - 1)
             then Int.add (selected s) 1
             else 0)))
  | XK_Left =>
      Ok (Running (set_cursor s (if 0 <? cursor s then Int.sub (cursor s) 1 else 0)))
  | XK_Right =>
      Ok (Running (set_cursor s
            (Int.wrap (if Size.wrap (cursor s) <? length
                       then Size.wrap (Int.add (cursor s) 1)
                       else length))))
  | XK_Home => Ok (Running (set_cursor s 0))
  | XK_End => Ok (Running (set_cursor s (Int.wrap length)))
  | XK_BackSpace =>
      if 0 <? cursor s then
        q <- Str.erase (query s) (Size.wrap (Int.sub (cursor s) 1)) 1 ;;
        Ok (Running (set_query s q (Int.sub (cursor s) 1)))
      else Ok (Running s)
  | XK_Delete =>
      if Size.wrap (cursor s) <? length then
        q <- Str.erase (query s) (Size.wrap (cursor s)) 1 ;;
        Ok (Running (set_query s q (cursor s)))
      else Ok (Running s)
  | XK_other =>
      if textlength ev =? 1 then
        front <- Str.substr (query s) 0 (Size.wrap (cursor s)) ;;
        back <- Str.substr (query s) (Size.wrap (cursor s)) length ;;
        Ok (Running (set_query s (front ++ Str.c_str (text ev) ++ back)
                       (Int.add (cursor s) 1)))
      else Ok (Running s)
  end.

Definition onKeyPress (ev : KeyEvent) (s : State) : result Outcome :=
  o <- key_switch ev s ;;
  match o with
  | Running s' =>
      Ok (Running (mkState (query s') (lowercase (query s')) (selected s')
                     (cursor s') (results s')))
  | _ => Ok o
  end.

Section EventLoop.

Variable sort : list Result -> list Result.
Variable applications : list Application.

(** Lines 433-438: the key handler, then [search], then the selection
    is put back to 0 when it is beyond the results. *)
Definition key_press (ev : KeyEvent) (s : State) : result Outcome :=
  o <- onKeyPress ev s ;;
  match o with
  | Running s' =>
      let results := search sort (queryi s') applications in
      let selected :=
        if Z.of_nat (List.length results) <=? Size.wrap (selected s')
        then 0 else selected s' in
      Ok (Running (mkState (query s') (queryi s') selected (cursor s') results))
  | _ => Ok o
  end.

(** The states after each key press of a sequence, up to the end of the
    session. *)
Fixpoint key_presses (evs : list KeyEvent) (s : State) : result (list State) :=
  match evs with
  | [] => Ok []
  | ev :: rest =>
      o <- key_press ev s ;;
      match o with
      | Running s' =>
          trace <- key_presses rest s' ;;
          Ok (s' :: trace)
      | _ => Ok []
      end
  end.

End EventLoop.

(* ================================================================== *)
(** ** The configuration: style and launch counts (lines 51-75, 212-256) *)

(** The keys of the two maps, in the order in which a [std::map] over the
    enumeration visits them. *)
Definition all_attributes : list StyleAttribute :=
  [C_TITLE; C_COMMENT; C_BG; C_HIGHLIGHT; C_MATCH;
   F_REGULAR; F_BOLD; F_SMALLREGULAR; F_SMALLBOLD; F_LARGE].

Definition STYLE_ATTRIBUTES (t : StyleAttribute) : string :=
  match t with
  | C_TITLE => "title"
  | C_COMMENT => "comment"
  | C_BG => "background"
  | C_HIGHLIGHT => "highlight"
  | C_MATCH => "match"
  | F_REGULAR => "regular"
  | F_BOLD => "bold"
  | F_SMALLREGULAR => "smallregular"
  | F_SMALLBOLD => "smallbold"
  | F_LARGE => "large"
  end.

(** A style map has a value for each of the ten attributes. *)
Definition Style : Type := StyleAttribute -> string.

Definition DEFAULT_STYLE : Style := fun t =>
  match t with
  | C_TITLE => "#111111"
  | C_COMMENT => "#999999"
  | C_BG => "#ffffff"
  | C_HIGHLIGHT => "#f8c291"
  | C_MATCH => "#111111"
  | F_REGULAR => "Ubuntu,sans-11"
  | F_BOLD => "Ubuntu,sans-11:bold"
  | F_SMALLREGULAR => "Ubuntu,sans-10"
  | F_SMALLBOLD => "Ubuntu,sans-10:bold"
  | F_LARGE => "Ubuntu,sans-20:light"
  end.

Definition attribute_eq_dec (t u : StyleAttribute) : {t = u} + {t <> u}.
Proof. decide equality. Defined.

(** [style[t] = v]. *)
Definition set_style (st : Style) (t : StyleAttribute) (v : string) : Style :=
  fun u => if attribute_eq_dec u t then v else st u.

Definition set_count (a : Application) (c : Z) : Application :=
  mkApplication (id a) (name a) (genericName a) (comment a) (cmd a) (keywords a) c.

(** The globals [style] and [applications]. *)
Record Config : Type := mkConfig {
  style : Style;
  applications : list Application
}.

(** *** std::stoi *)

(** [isspace] in the "C" locale. *)
Definition isspace (c : ascii) : bool :=
  let n := nat_of_ascii c in
  (n =? 32)%nat || ((9 <=? n)%nat && (n <=? 13)%nat).

Definition digit (c : ascii) : option Z :=
  let n := nat_of_ascii c in
  if (48 <=? n)%nat && (n <=? 57)%nat then Some (Z.of_nat n - 48) else None.

Fixpoint skip_spaces (s : string) : string :=
  match s with
  | String c rest => if isspace c then skip_spaces rest else s
  | EmptyString => s
  end.

(** The value of the digits that [s] begins with, after the digits of
    value [acc]. *)
Fixpoint read_digits (s : string) (acc : Z) : Z :=
  match s with
  | String c rest =>
      match digit c with
      | Some d => read_digits rest (acc * 10 + d)
      | None => acc
      end
  | EmptyString => acc
  end.

(** The number that [s] begins with, if it begins with a digit. *)
Definition read_number (s : string) : option Z :=
  match s with
  | String c rest =>
      match digit c with
      | Some d => Some (read_digits rest d)
      | None => None
      end
  | EmptyString => None
  end.

(** [std::stoi(s)]: blanks, an optional sign, digits; what follows the
    digits is left alone.  Without a digit there is no conversion and
    [invalid_argument] is thrown; a value that does not fit an [int] throws
    [out_of_range]. *)
Definition stoi (s : string) : result Z :=
  let s := skip_spaces s in
  let signed :=
    match s with
    | String "-" rest => (true, rest)
    | String "+" rest => (false, rest)
    | _ => (false, s)
    end in
  match read_number (snd signed) with
  | None => Throw invalid_argument
  | Some n =>
      let v := if fst signed then - n else n in
      if (Int.min_value <=? v) && (v <=? Int.max_value) then Ok v
      else Throw out_of_range
  end.

(** *** operator<< for an int *)

Definition digit_char (d : Z) : ascii := ascii_of_nat (Z.to_nat (48 + d)).

(** The decimal digits of [n], most significant first, in front of
    [acc]. *)
Fixpoint digits (fuel : nat) (n : Z) (acc : string) : string :=
  let acc := String (digit_char (n mod 10)) acc in
  match fuel with
  | O => acc
  | S fuel => if n <? 10 then acc else digits fuel (n / 10) acc
  end.

(** An [int] has at most ten digits. *)
Definition decimal (n : Z) : string :=
  if n <? 0 then String "-" (digits 9 (- n) "") else digits 9 n "".

(** *** readConfig *)

(** Lines 223-228: the attribute whose name is the key gets the value. *)
Fixpoint assign_style (attrs : list StyleAttribute) (key val : string) (st : Style) : Style :=
  match attrs with
  | [] => st
  | t :: rest =>
      if (key =? STYLE_ATTRIBUTES t)%string then set_style st t val
      else assign_style rest key val st
  end.

(** Lines 230-235: the first application whose id is the key gets the
    count that [stoi] reads; nothing catches what [stoi] throws. *)
Fixpoint assign_count (apps : list Application) (key val : string)
  : result (list Application) :=
  match apps with
  | [] => Ok []
  | a :: rest =>
      if (id a =? key)%string then
        c <- stoi val ;;
        Ok (set_count a c :: rest)
      else
        rest' <- assign_count rest key val ;;
        Ok (a :: rest')
  end.

(** The body of the loop over the lines, lines 218-236. *)
Definition read_line (line : string) (cfg : Config) : result Config :=
  let i := Int.wrap (Str.find_last_of line "=") in
  if Size.wrap i =? Size.npos then Ok cfg
  else
    key <- Str.substr line 0 (Size.wrap i) ;;
    val <- Str.substr_from line (Size.wrap (Int.add i 1)) ;;
    if Str.find key "/" =? Size.npos then
      Ok (mkConfig (assign_style all_attributes key val (style cfg)) (applications cfg))
    else
      apps <- assign_count (applications cfg) key val ;;
      Ok (mkConfig (style cfg) apps).

Fixpoint read_lines (lines : list string) (cfg : Config) : result Config :=
  match lines with
  | [] => Ok cfg
  | line :: rest =>
      cfg' <- read_line line cfg ;;
      read_lines rest cfg'
  end.

(** [file] is the text of the configuration file, or [None] when [stat]
    does not find it. *)
Definition readConfig (file : option string) (cfg : Config) : result Config :=
  match file with
  | None => Ok cfg
  | Some content => read_lines (getlines "010" content) cfg
  end.

(** *** writeConfig *)

Definition newline : string := String "010" "".

(** Lines 244-248. *)
Fixpoint write_styles (attrs : list StyleAttribute) (st : Style) : string :=
  match attrs with
  | [] => ""
  | t :: rest =>
      (if (st t =? DEFAULT_STYLE t)%string then ""
       else STYLE_ATTRIBUTES t ++ "=" ++ st t ++ newline)
      ++ write_styles rest st
  end.

(** Lines 250-254. *)
Fixpoint write_counts (apps : list Application) : string :=
  match apps with
  | [] => ""
  | a :: rest =>
      (if 0 <? count a then id a ++ "=" ++ decimal (count a) ++ newline else "")
      ++ write_counts rest
  end.

(** The text that the file holds after [writeConfig]. *)
Definition writeConfig (cfg : Config) : string :=
  "[Style]" ++ newline
  ++ write_styles all_attributes (style cfg)
  ++ newline ++ "[Application Launch Counts]" ++ newline
  ++ write_counts (applications cfg).

(* ================================================================== *)
(** ** render (lines 160-210): the pieces of a name or a comment *)

Inductive Face : Type :=
| Plain
| Marked.

(** Lines 185-195 for the name, and lines 198-208 for the comment: the
    texts that are drawn one after the other, each with the face of its
    font.  The match is looked for in the lower-cased text, and the marked
    piece has the length of [query].  Each text goes to [renderText] as
    [c_str()], from which the parameter [string text] is built. *)
Definition pieces (shown query queryi : string) : result (list (Face * string)) :=
  let namei := Int.wrap (Str.find (lowercase shown) queryi) in
  if Size.wrap namei =? Size.npos then Ok [(Plain, Str.c_str shown)]
  else
    head <- Str.substr shown 0 (Size.wrap namei) ;;
    mid <- Str.substr shown (Size.wrap namei) (Str.size query) ;;
    tail <- Str.substr_from shown (Size.wrap (Size.wrap namei + Str.size query)) ;;
    Ok [(Plain, Str.c_str head); (Marked, Str.c_str mid); (Plain, Str.c_str tail)].

(* ================================================================== *)
(** ** launch (lines 311-332) *)

(** The child process, lines 315-326: the words of the command that do
    not begin with '%' make the argument vector, each as the C string
    that [c_str()] gives. *)
Definition launch_args (cmd : string) : list string :=
  List.map Str.c_str
    (filter (fun arg => negb (Str.find arg "%" =? 0)) (getlines " " cmd)).

(** [app.count++] on the element of [applications] at position [n]. *)
Fixpoint count_launch (n : nat) (apps : list Application) : list Application :=
  match apps with
  | [] => []
  | a :: rest =>
      match n with
      | O => set_count a (Int.add (count a) 1) :: rest
      | S n' => a :: count_launch n' rest
      end
  end.

(** The parent process, lines 328-329: the count of the application goes
    up by one and the configuration is written; the result is the new state
    and the text of the file. *)
Definition launch (n : nat) (cfg : Config) : Config * string :=
  let cfg' := mkConfig (style cfg) (count_launch n (applications cfg)) in
  (cfg', writeConfig cfg').

(** [*results[selected].app], line 343: the position of the application
    that the Return key launches.  The vector is not checked: there is an
    application only when [selected] is an index of [results]. *)
Definition chosen (s : State) : option nat :=
  if (0 <=? selected s) then
    option_map app (nth_error (results s) (Z.to_nat (selected s)))
  else None.

(* ================================================================== *)
(** ** Vocabulary of the statements *)

(** [q] occurs in [s] at position [m]. *)
Definition occurs_at (q s : string) (m : nat) : Prop :=
  exists a b, s = a ++ q ++ b /\ String.length a = m.

(** [s] contains [q] as a contiguous substring. *)
Definition contains (s q : string) : Prop := exists m, occurs_at q s m.

(** [m] is the position of the first occurrence of [q] in [s]. *)
Definition first_occurrence (q s : string) (m : nat) : Prop :=
  occurs_at q s m /\ forall m', occurs_at q s m' -> (m <= m')%nat.

(** The value of the score expression of line 123 when no operation
    leaves the range of [int]. *)
Definition score_value (i w : Z) (m : nat) (c : Z) : Z :=
  (100 - i) * w * (if Z.of_nat m =? 0 then 10000 else 100) + c.

Definition score_in_range (i w : Z) (m : nat) (c : Z) : Prop :=
  Int.in_range (100 - i)
  /\ Int.in_range ((100 - i) * w)
  /\ Int.in_range ((100 - i) * w * (if Z.of_nat m =? 0 then 10000 else 100))
  /\ Int.in_range (score_value i w m c).

(** Scores never increase along the list. *)
Definition descending (l : list Result) : Prop :=
  StronglySorted (fun a b => score b <= score a) l.

(** No keyword of the list contains the query. *)
Definition none_contains (q : string) (kws : list Keyword) : Prop :=
  forall k, In k kws -> ~ contains (word k) q.

(** The application [a] with another keyword list. *)
Definition with_keywords (a : Application) (kws : list Keyword) : Application :=
  mkApplication (id a) (name a) (genericName a) (comment a) (cmd a) kws (count a).

(** The application at position [n] has a result in [rs]. *)
Definition listed (n : nat) (rs : list Result) : Prop :=
  exists r, In r rs /\ app r = n.

(** [s] has an empty field between spaces: it begins with a space, or two
    spaces follow each other in it. *)
Definition begins_with_space (s : string) : Prop :=
  exists rest, s = String " " rest.

Definition has_double_space (s : string) : Prop :=
  exists a b, s = a ++ String " " (String " " b).

Definition empty_field (s : string) : Prop :=
  begins_with_space s \/ has_double_space s.

(** Some keyword of the list has the empty string as its text. *)
Definition has_empty_keyword (kws : list Keyword) : Prop :=
  exists k, In k kws /\ word k = "".

(** The editing commands, as key presses. *)
Inductive Command : Type :=
| MoveLeft | MoveRight | MoveHome | MoveEnd | Backspace | Delete
| InsertChar (c : ascii).

Definition key_of (c : Command) : KeyEvent :=
  match c with
  | MoveLeft => mkKeyEvent XK_Left "" 0
  | MoveRight => mkKeyEvent XK_Right "" 0
  | MoveHome => mkKeyEvent XK_Home "" 0
  | MoveEnd => mkKeyEvent XK_End "" 0
  | Backspace => mkKeyEvent XK_BackSpace (String "008" "") 1
  | Delete => mkKeyEvent XK_Delete (String "127" "") 1
  | InsertChar c => mkKeyEvent XK_other (String c "") 1
  end.

(** A command that carries a character carries a character of text: not
    the NUL byte, which ends the buffer [text] where it stands. *)
Definition textual (c : Command) : Prop :=
  match c with
  | InsertChar c => c <> zero
  | _ => True
  end.

(** The cursor is an insertion offset of the query. *)
Definition cursor_in_bounds (s : State) : Prop :=
  0 <= cursor s <= Str.size (query s).

(** The weights that the indexer gives. *)
Definition indexer_weight (k : Keyword) : Prop := weight k = 1 \/ weight k = 1000.

(** A value that a style record can hold: the text after the last '=' of
    a line. *)
Definition storable (v : string) : Prop :=
  Str.mem "=" v = false /\ Str.mem "010" v = false.

(** The value of the first line that begins with [key] and goes on after
    it; the empty string when there is no such line. *)
Fixpoint first_value (key : string) (lines : list string) : string :=
  match lines with
  | [] => ""
  | line :: rest =>
      let value := substring (String.length key)
                     (String.length line - String.length key) line in
      if prefix key line && negb (value =? "")%string then value
      else first_value key rest
  end.

(** A string without upper-case letters: [lowercase] leaves it as it is. *)
Definition lower_case (s : string) : Prop := lowercase s = s.

(** The five tests of the loop body of lines 268-286, one by one. *)
Definition read_name (line : string) (a : Application) : Application :=
  if (name a =? "")%string && begins_with line "Name=" then
    mkApplication (id a) (after 5 line) (genericName a) (comment a) (cmd a)
      (keywords a) (count a)
  else a.

Definition read_genericName (line : string) (a : Application) : Application :=
  if (genericName a =? "")%string && begins_with line "GenericName=" then
    mkApplication (id a) (name a) (after 12 line) (comment a) (cmd a)
      (keywords a) (count a)
  else a.

Definition read_comment (line : string) (a : Application) : Application :=
  if (comment a =? "")%string && begins_with line "Comment=" then
    mkApplication (id a) (name a) (genericName a) (after 8 line) (cmd a)
      (keywords a) (count a)
  else a.

Definition read_cmd (line : string) (a : Application) : Application :=
  if (cmd a =? "")%string && begins_with line "Exec="
     && negb (after 5 line =? "")%string then
    mkApplication (id a) (name a) (genericName a) (comment a) (after 5 line)
      (keywords a) (count a)
  else a.

Definition read_hints (line : string) (a : Application) : Application :=
  if (cmd a =? "")%string && begins_with line "Keywords=" then
    mkApplication (id a) (name a) (genericName a) (comment a) (cmd a)
      (push_words 1 (getlines " " (lowercase (after 9 line))) (keywords a))
      (count a)
  else a.

(** The records of the saved file: one for each attribute whose value is
    not the default, one for each application with a positive count. *)
Fixpoint style_records (attrs : list StyleAttribute) (st : Style) : list string :=
  match attrs with
  | [] => []
  | t :: rest =>
      if (st t =? DEFAULT_STYLE t)%string then style_records rest st
      else (STYLE_ATTRIBUTES t ++ String "=" (st t)) :: style_records rest st
  end.

Fixpoint count_records (apps : list Application) : list string :=
  match apps with
  | [] => []
  | a :: rest =>
      if 0 <? count a then (id a ++ String "=" (decimal (count a))) :: count_records rest
      else count_records rest
  end.

(** An id that [readConfig] takes for an application id and reads back:
    a path, on one line, of a length that fits an [int]. *)
Definition path_id (s : string) : Prop :=
  contains s "/" /\ Str.mem "010" s = false /\ Str.size s < Int.max_value.

(** The style map after the style records of [st] have been read into
    [base]. *)
Fixpoint load_styles (attrs : list StyleAttribute) (st base : Style) : Style :=
  match attrs with
  | [] => base
  | t :: rest =>
      load_styles rest st
        (if (st t =? DEFAULT_STYLE t)%string then base else set_style base t (st t))
  end.

(** The application as it is at start-up, before the counts are read. *)
Definition fresh (a : Application) : Application := set_count a 0.


(** The command line made of the words [ws] with one space between two
    of them. *)
Fixpoint spaced (ws : list string) : string :=
  match ws with
  | [] => ""
  | w :: rest =>
      match rest with
      | [] => w
      | _ => w ++ String " " (spaced rest)
      end
  end.
(* ================================================================== *)
(** ** Example data *)

(** The application of the end-to-end example. *)
Definition firefox : Application :=
  mkApplication "/usr/share/applications/firefox.desktop" "Firefox" "" "" "firefox"
    [mkKeyword "firefox" 1000; mkKeyword "web" 1; mkKeyword "browser" 1] 5.

(** An application in which a late keyword would score higher than the
    first qualifying one. *)
Definition editor : Application :=
  mkApplication "/usr/share/applications/gedit.desktop" "Text Editor" "" "" "gedit"
    [mkKeyword "plaintext" 1; mkKeyword "text" 1000; mkKeyword "editor" 1000] 0.

(** Two applications that differ in where the query "fire" falls in their
    only keyword, and in their launch counts. *)
Definition fire_prefix : Application :=
  mkApplication "/usr/share/applications/firewall.desktop" "Firewall" "" "" "fw"
    [mkKeyword "firewall" 1] 0.

Definition fire_inside : Application :=
  mkApplication "/usr/share/applications/campfire.desktop" "Campfire" "" "" "cf"
    [mkKeyword "campfire" 1] 1000000.

Definition fire_inside_rare : Application :=
  mkApplication "/usr/share/applications/campfire.desktop" "Campfire" "" "" "cf"
    [mkKeyword "campfire" 1] 7.

(** An application whose only keyword with "zed" is the 101st. *)
Definition late_match (tag : string) : Application :=
  mkApplication ("/usr/share/applications/late-" ++ tag ++ ".desktop") "" "" "" "late"
    (repeat (mkKeyword "a" 1) 100 ++ [mkKeyword "zed" 1]) 0.

Definition eleven_late : list Application :=
  List.map late_match ["a"; "b"; "c"; "d"; "e"; "f"; "g"; "h"; "i"; "j"; "k"].

(** Twelve entries with the keywords of the end-to-end application, with
    counts 1 to 12. *)
Definition firefox_counted (c : Z) : Application :=
  mkApplication ("/usr/share/applications/firefox-" ++ decimal c ++ ".desktop")
    (name firefox) (genericName firefox) (comment firefox)
    (cmd firefox) (keywords firefox) c.

Definition twelve : list Application :=
  List.map firefox_counted [1; 2; 3; 4; 5; 6; 7; 8; 9; 10; 11; 12].

(** A desktop entry without a generic name. *)
Definition firefox_desktop : string :=
  "[Desktop Entry]" ++ String "010"
  ("Name=Firefox" ++ String "010"
  ("Comment=Browse the Web" ++ String "010"
  ("Exec=firefox %u" ++ String "010" ""))).

(** A session in the middle of the query "ab". *)
Definition editing_ab : State := mkState "ab" "ab" 0 1 [].

Definition some_commands : list Command :=
  [InsertChar "x"; MoveLeft; Backspace; Delete; MoveEnd; MoveRight; MoveHome;
   Backspace; MoveLeft; InsertChar "F"].

(** A configuration file whose second record gives a launch count that is
    not a number. *)
Definition bad_config : string :=
  "[Style]" ++ newline
  ++ "match=#222222" ++ newline
  ++ newline ++ "[Application Launch Counts]" ++ newline
  ++ "/usr/share/applications/firefox.desktop=many" ++ newline
  ++ "title=#333333" ++ newline.

Definition at_startup : Config := mkConfig DEFAULT_STYLE [set_count firefox 0].

(** The style of the round trip: the highlight colour is changed. *)
Definition red_highlight : Style := set_style DEFAULT_STYLE C_HIGHLIGHT "#ff0000".

(** A desktop entry with two names, keyword hints before and after the
    command, and a second command. *)
Definition editor_desktop : string :=
  "[Desktop Entry]" ++ newline
  ++ "Name=" ++ newline
  ++ "Name=Text Editor" ++ newline
  ++ "Keywords=Plain Text" ++ newline
  ++ "Exec=gedit %U" ++ newline
  ++ "Name=Other" ++ newline
  ++ "Keywords=Late Hint" ++ newline
  ++ "Exec=other" ++ newline.

(** The query "fox" with the cursor after the "f". *)
Definition editing_fox : State := mkState "fox" "fox" 0 1 [].


(** The launcher as it opens: no query, the cursor at 0, no result. *)
Definition no_query : State := mkState "" "" 0 0 [].

(** A key press for which the lookup stores the single byte NUL (Ctrl and
    the space bar), then the letter a. *)
Definition nul_then_a : list Command := [InsertChar zero; InsertChar "a"].
(* ================================================================== *)
(** * Properties *)

(** ** Machine integers *)

(** Goals on the ranges of [int] and [size_t]. *)
Ltac range :=
  unfold Int.in_range, Int.min_value, Int.max_value, Size.modulus, Str.size in *; lia.


Lemma int_wrap_in_range (z : Z) : Int.in_range z -> Int.wrap z = z.
Proof.
  unfold Int.in_range, Int.min_value, Int.max_value, Int.wrap. intros H.
  rewrite Z.mod_small; lia.
Qed.

Lemma int_wrap_npos : Int.wrap Size.npos = -1.
Proof. reflexivity. Qed.

Lemma size_wrap_minus_one : Size.wrap (-1) = Size.npos.
Proof. reflexivity. Qed.

Lemma size_wrap_small (z : Z) : 0 <= z < Size.modulus -> Size.wrap z = z.
Proof. intros H. unfold Size.wrap. apply Z.mod_small. exact H. Qed.

(** A position that fits an [int] survives the conversion to [int] and
    back, and is never taken for [npos]. *)
Lemma position_as_int (p : nat) :
  Z.of_nat p <= Int.max_value ->
  Int.wrap (Z.of_nat p) = Z.of_nat p
  /\ (Size.wrap (Int.wrap (Z.of_nat p)) =? Size.npos) = false.
Proof.
  intros H. unfold Int.max_value in H.
  assert (E : Int.wrap (Z.of_nat p) = Z.of_nat p).
  { apply int_wrap_in_range. unfold Int.in_range, Int.min_value, Int.max_value. lia. }
  split; [exact E|]. rewrite E.
  rewrite size_wrap_small by (unfold Size.modulus; lia).
  apply Z.eqb_neq. unfold Size.npos. lia.
Qed.

(** ** Strings: what [find] returns *)

Lemma str_append_assoc (a b c : string) : (a ++ b) ++ c = a ++ b ++ c.
Proof. induction a as [|x a IH]; simpl; [reflexivity | now rewrite IH]. Qed.

Lemma str_append_nil_r (a : string) : a ++ "" = a.
Proof. induction a as [|x a IH]; simpl; [reflexivity | now rewrite IH]. Qed.

Lemma str_length_append (a b : string) :
  String.length (a ++ b) = (String.length a + String.length b)%nat.
Proof. induction a as [|x a IH]; simpl; [reflexivity | now rewrite IH]. Qed.

Lemma prefix_occurs (q s : string) : prefix q s = true <-> occurs_at q s 0.
Proof.
  revert s. induction q as [|c q IH]; intros s.
  - split; intros _.
    + exists "", s. split; reflexivity.
    + destruct s; reflexivity.
  - destruct s as [|d s]; simpl.
    + split; [discriminate|]. intros (a & b & E & L).
      destruct a; simpl in *; discriminate.
    + destruct (ascii_dec c d) as [->|N].
      * rewrite IH. split.
        -- intros (a & b & E & L). destruct a; [|discriminate].
           exists "", b. simpl in *. now subst.
        -- intros (a & b & E & L). destruct a; [|discriminate].
           simpl in E. injection E as E. exists "", b. split; [exact E | reflexivity].
      * split; [discriminate|]. intros (a & b & E & L).
        destruct a; [|discriminate]. simpl in E. injection E as E1 E2. congruence.
Qed.

Lemma occurs_at_tail (q s : string) (c : ascii) (m : nat) :
  occurs_at q (String c s) (S m) <-> occurs_at q s m.
Proof.
  split; intros (a & b & E & L).
  - destruct a as [|x a]; [discriminate|]. simpl in *. injection E as E1 E2.
    exists a, b. split; [exact E2 | lia].
  - exists (String c a), b. simpl. split; [now rewrite E | now rewrite L].
Qed.

Lemma occurs_at_empty (q : string) (m : nat) : occurs_at q "" m -> m = 0%nat.
Proof. intros (a & b & E & L). destruct a; simpl in *; [lia | discriminate]. Qed.

Lemma find_at_found (s q : string) (pos p : nat) :
  Str.find_at s q pos = Some p ->
  exists m, p = (pos + m)%nat /\ first_occurrence q s m.
Proof.
  revert pos. induction s as [|c s IH]; intros pos; cbn [Str.find_at].
  - destruct (prefix q "") eqn:P; [|discriminate]. intros [= <-].
    exists 0%nat. split; [lia|]. split; [now apply prefix_occurs | intros; lia].
  - destruct (prefix q (String c s)) eqn:P.
    + intros [= <-]. exists 0%nat. split; [lia|].
      split; [now apply prefix_occurs | intros; lia].
    + intros H. destruct (IH _ H) as (m & -> & O & Min).
      exists (S m). split; [lia|]. split; [now apply occurs_at_tail|].
      intros [|m'] O'.
      * apply prefix_occurs in O'. congruence.
      * apply occurs_at_tail in O'. apply Min in O'. lia.
Qed.

Lemma find_at_missing (s q : string) (pos : nat) :
  Str.find_at s q pos = None -> ~ contains s q.
Proof.
  revert pos. induction s as [|c s IH]; intros pos; cbn [Str.find_at].
  - destruct (prefix q "") eqn:P; [discriminate|]. intros _ (m & O).
    pose proof (occurs_at_empty _ _ O) as ->. apply prefix_occurs in O. congruence.
  - destruct (prefix q (String c s)) eqn:P; [discriminate|].
    intros H ([|m] & O).
    + apply prefix_occurs in O. congruence.
    + apply occurs_at_tail in O. apply (IH _ H). now exists m.
Qed.

Lemma find_at_first (s q : string) (m : nat) :
  first_occurrence q s m -> Str.find_at s q 0 = Some m.
Proof.
  intros (O & Min). destruct (Str.find_at s q 0) as [p|] eqn:F.
  - destruct (find_at_found _ _ _ _ F) as (m' & -> & O' & Min').
    simpl. f_equal. apply Nat.le_antisymm; auto.
  - exfalso. apply (find_at_missing _ _ _ F). now exists m.
Qed.

Lemma find_at_absent (s q : string) : ~ contains s q -> Str.find_at s q 0 = None.
Proof.
  intros N. destruct (Str.find_at s q 0) as [p|] eqn:F; [|reflexivity].
  destruct (find_at_found _ _ _ _ F) as (m & _ & O & _). exfalso. apply N. now exists m.
Qed.

(** ** The scan of one keyword list *)

(** The keywords that do not contain the query are passed over; each adds
    one to the counter. *)
Lemma scan_keywords_skip (q : string) (c : Z) (pre rest : list Keyword) (i : Z) :
  (forall k, In k pre -> ~ contains (word k) q) ->
  0 <= i -> i + Z.of_nat (List.length pre) <= Int.max_value ->
  scan_keywords q c (pre ++ rest) i
  = scan_keywords q c rest (i + Z.of_nat (List.length pre)).
Proof.
  revert i. induction pre as [|k pre IH]; intros i N I0 I1.
  - simpl. now rewrite Z.add_0_r.
  - cbn [List.app scan_keywords List.length] in *.
    unfold Str.find. rewrite find_at_absent by (apply N; now left).
    rewrite int_wrap_npos, size_wrap_minus_one, Z.eqb_refl. cbn [negb].
    assert (E : Int.add i 1 = i + 1).
    { apply int_wrap_in_range. unfold Int.in_range, Int.min_value, Int.max_value in *. lia. }
    rewrite E, IH; [f_equal; lia | intros; apply N; now right | lia | lia].
Qed.

(** A keyword without the query never stops the scan, whatever the
    counter is. *)
Lemma scan_keywords_none (q : string) (c : Z) (kws : list Keyword) (i : Z) :
  (forall k, In k kws -> ~ contains (word k) q) ->
  scan_keywords q c kws i = 0.
Proof.
  revert i. induction kws as [|k kws IH]; intros i N; [reflexivity|].
  cbn [scan_keywords]. unfold Str.find.
  rewrite find_at_absent by (apply N; now left).
  rewrite int_wrap_npos, size_wrap_minus_one, Z.eqb_refl. cbn [negb].
  apply IH. intros; apply N; now right.
Qed.

(** The scan stops at a keyword that contains the query. *)
Lemma scan_keywords_hit (q : string) (c : Z) (k : Keyword) (post : list Keyword)
    (i : Z) (m : nat) :
  first_occurrence q (word k) m ->
  Z.of_nat m <= Int.max_value ->
  scan_keywords q c (k :: post) i
  = Int.add (Int.mul (Int.mul (Int.sub 100 i) (weight k))
                     (if Z.of_nat m =? 0 then 10000 else 100)) c.
Proof.
  intros F M. cbn [scan_keywords]. unfold Str.find.
  rewrite (find_at_first _ _ _ F).
  destruct (position_as_int m M) as [E1 E2]. now rewrite E2, E1.
Qed.

Lemma score_expression (i w : Z) (m : nat) (c : Z) :
  score_in_range i w m c ->
  Int.add (Int.mul (Int.mul (Int.sub 100 i) w)
                   (if Z.of_nat m =? 0 then 10000 else 100)) c
  = score_value i w m c.
Proof.
  intros (R1 & R2 & R3 & R4). unfold Int.add, Int.mul, Int.sub, score_value in *.
  rewrite (int_wrap_in_range _ R1), (int_wrap_in_range _ R2), (int_wrap_in_range _ R3).
  now apply int_wrap_in_range.
Qed.

(** The first keyword that contains the query decides the score. *)
Lemma app_score_first (q : string) (a : Application)
    (pre : list Keyword) (k : Keyword) (post : list Keyword) (m : nat) :
  keywords a = (pre ++ k :: post)%list ->
  (forall k', In k' pre -> ~ contains (word k') q) ->
  first_occurrence q (word k) m ->
  Z.of_nat (List.length pre) <= Int.max_value ->
  Z.of_nat m <= Int.max_value ->
  score_in_range (Z.of_nat (List.length pre)) (weight k) m (count a) ->
  app_score q a = score_value (Z.of_nat (List.length pre)) (weight k) m (count a).
Proof.
  intros E N F L M R. unfold app_score. rewrite E.
  rewrite scan_keywords_skip by (auto; lia). rewrite Z.add_0_l.
  rewrite (scan_keywords_hit _ _ _ _ _ m F M). now apply score_expression.
Qed.

(** ** The scan of the applications *)

Lemma scan_from_In (n : nat) (q : string) (apps : list Application) (r : Result) :
  In r (scan_from n q apps) <->
  exists a, (n <= app r)%nat /\ nth_error apps (app r - n) = Some a
            /\ score r = app_score q a /\ 0 < score r.
Proof.
  revert n. induction apps as [|a apps IH]; intros n; cbn [scan_from].
  - split; [intros [] | intros (a & _ & E & _)].
    destruct (app r - n)%nat; discriminate.
  - rewrite in_app_iff, IH. split.
    + intros [H | (b & L & E & S1 & S2)].
      * destruct (0 <? app_score q a) eqn:P; [|destruct H].
        destruct H as [<-|[]]. exists a. cbn [app score].
        rewrite Nat.sub_diag. repeat split; try reflexivity. now apply Z.ltb_lt.
      * exists b. split; [lia|]. split; [|auto].
        replace (app r - n)%nat with (S (app r - S n)) by lia. exact E.
    + intros (b & L & E & S1 & S2).
      destruct (Nat.eq_dec (app r) n) as [En|Nn].
      * left. rewrite En, Nat.sub_diag in E. injection E as <-.
        assert (P : (0 <? app_score q a) = true) by (apply Z.ltb_lt; lia).
        rewrite P. left. destruct r as [x y]. cbn in *. now subst.
      * right. exists b. split; [lia|]. split; [|auto].
        replace (app r - n)%nat with (S (app r - S n)) in E by lia. exact E.
Qed.

Lemma scan_In (q : string) (apps : list Application) (r : Result) :
  In r (scan q apps) <->
  exists a, nth_error apps (app r) = Some a /\ score r = app_score q a /\ 0 < score r.
Proof.
  unfold scan. rewrite scan_from_In. split.
  - intros (a & _ & E & S). rewrite Nat.sub_0_r in E. now exists a.
  - intros (a & E & S). exists a. rewrite Nat.sub_0_r. split; [lia | now split].
Qed.

Lemma scan_from_length (n : nat) (q : string) (apps : list Application) :
  List.length (scan_from n q apps)
  = List.length (filter (fun a => 0 <? app_score q a) apps).
Proof.
  revert n. induction apps as [|a apps IH]; intros n; cbn [scan_from filter]; [reflexivity|].
  rewrite length_app, IH. now destruct (0 <? app_score q a).
Qed.

Lemma scan_from_NoDup (n : nat) (q : string) (apps : list Application) :
  NoDup (List.map app (scan_from n q apps)).
Proof.
  revert n. induction apps as [|a apps IH]; intros n; cbn [scan_from]; [constructor|].
  destruct (0 <? app_score q a); cbn [List.app List.map]; [|apply IH].
  constructor; [|apply IH]. cbn [app]. intros H. apply in_map_iff in H.
  destruct H as (r & E & H). apply scan_from_In in H. destruct H as (b & L & _). lia.
Qed.

(** ** Sorting and the cut to ten results *)

Lemma descending_app (l1 l2 : list Result) :
  descending (l1 ++ l2) ->
  descending l1 /\ forall x y, In x l1 -> In y l2 -> score y <= score x.
Proof.
  unfold descending. induction l1 as [|a l1 IH]; cbn [List.app]; intros H.
  - split; [constructor | intros x y []].
  - apply StronglySorted_inv in H. destruct H as [H F].
    destruct (IH H) as [D T]. rewrite Forall_forall in F. split.
    + constructor; [exact D|]. apply Forall_forall. intros x Hx. apply F.
      apply in_or_app. now left.
    + intros x y [<-|Hx] Hy; [|now apply T]. apply F. apply in_or_app. now right.
Qed.

Lemma insert_result_perm (r : Result) (l : list Result) :
  Permutation (insert_result r l) (r :: l).
Proof.
  induction l as [|x l IH]; cbn [insert_result]; [reflexivity|].
  destruct (before x r); [|reflexivity].
  rewrite IH. apply perm_swap.
Qed.

Lemma insert_result_sorted (r : Result) (l : list Result) :
  StronglySorted (fun a b => before b a = false) l ->
  StronglySorted (fun a b => before b a = false) (insert_result r l).
Proof.
  induction l as [|x l IH]; cbn [insert_result]; intros H.
  - repeat constructor.
  - apply StronglySorted_inv in H. destruct H as [H F].
    rewrite Forall_forall in F.
    destruct (before x r) eqn:C; unfold before in C.
    + constructor; [now apply IH|].
      apply Forall_forall. intros y Hy.
      apply (Permutation_in _ (insert_result_perm r l)) in Hy.
      destruct Hy as [<-|Hy]; [|now apply F].
      unfold before. apply Z.ltb_ge. apply Z.ltb_lt in C. lia.
    + constructor; [constructor; [exact H | now apply Forall_forall]|].
      constructor; [exact C|].
      apply Forall_forall. intros y Hy. specialize (F y Hy).
      unfold before in *. apply Z.ltb_ge in F, C. apply Z.ltb_ge. lia.
Qed.

Lemma insertion_sort_contract : sort_contract insertion_sort.
Proof.
  intros l. induction l as [|r l [P S]]; cbn [insertion_sort].
  - split; [reflexivity | constructor].
  - split; [|now apply insert_result_sorted].
    rewrite insert_result_perm. now constructor.
Qed.

Section SearchFacts.

Variable sort : list Result -> list Result.
Hypothesis contract : sort_contract sort.

Lemma sort_descending (l : list Result) : descending (sort l).
Proof.
  destruct (contract l) as [_ S]. unfold descending.
  induction S as [|a l' S IH F]; constructor; [exact IH|].
  apply Forall_forall. intros b Hb. rewrite Forall_forall in F.
  specialize (F b Hb). unfold before in F. apply Z.ltb_ge in F. lia.
Qed.

Lemma search_cut (q : string) (apps : list Application) :
  q <> "" -> search sort q apps = firstn 10 (sort (scan q apps)).
Proof.
  intros N. unfold search.
  assert (P : (0 <? Str.size q) = true).
  { apply Z.ltb_lt. unfold Str.size. destruct q; [congruence | cbn [String.length]; lia]. }
  rewrite P. cbv zeta.
  destruct (10 <? Z.of_nat (List.length (sort (scan q apps)))) eqn:C; [reflexivity|].
  symmetry. apply firstn_all2. apply Z.ltb_ge in C. lia.
Qed.

Lemma search_empty_query (apps : list Application) : search sort "" apps = [].
Proof. reflexivity. Qed.

Lemma search_incl (q : string) (apps : list Application) (r : Result) :
  In r (search sort q apps) -> In r (scan q apps).
Proof.
  destruct (string_dec q "") as [->|N]; [intros []|].
  rewrite (search_cut _ _ N). intros H.
  apply (Permutation_in _ (proj1 (contract _))).
  rewrite <- (firstn_skipn 10). apply in_or_app. now left.
Qed.

Lemma search_length (q : string) (apps : list Application) :
  q <> "" ->
  List.length (search sort q apps) = Nat.min 10 (List.length (scan q apps)).
Proof.
  intros N. rewrite (search_cut _ _ N), length_firstn.
  now rewrite (Permutation_length (proj1 (contract _))).
Qed.

Lemma search_descending (q : string) (apps : list Application) :
  descending (search sort q apps).
Proof.
  destruct (string_dec q "") as [->|N]; [constructor|].
  rewrite (search_cut _ _ N).
  pose proof (sort_descending (scan q apps)) as D.
  rewrite <- (firstn_skipn 10) in D. now apply descending_app in D.
Qed.

Lemma search_NoDup (q : string) (apps : list Application) :
  NoDup (List.map app (search sort q apps)).
Proof.
  destruct (string_dec q "") as [->|N]; [constructor|].
  rewrite (search_cut _ _ N).
  assert (D : NoDup (List.map app (sort (scan q apps)))).
  { apply (Permutation_NoDup (l := List.map app (scan q apps))).
    - apply Permutation_map. symmetry. apply contract.
    - apply scan_from_NoDup. }
  rewrite <- (firstn_skipn 10 (sort _)), map_app in D.
  now apply NoDup_app_remove_r in D.
Qed.

(** A scanned result that the cut drops has a score no greater than
    any result that is kept. *)
Lemma search_keeps_best (q : string) (apps : list Application) (r : Result) :
  q <> "" ->
  In r (scan q apps) ->
  In r (search sort q apps)
  \/ forall r', In r' (search sort q apps) -> score r <= score r'.
Proof.
  intros N H. rewrite (search_cut _ _ N).
  apply (Permutation_in _ (Permutation_sym (proj1 (contract _)))) in H.
  pose proof (sort_descending (scan q apps)) as D.
  rewrite <- (firstn_skipn 10 (sort _)) in H, D.
  apply in_app_or in H. destruct H as [H|H]; [now left | right].
  apply descending_app in D. destruct D as [_ D]. intros r' H'. now apply D.
Qed.

End SearchFacts.

(* ================================================================== *)
(** * The ranking engine *)

Lemma search_result_score (sort : list Result -> list Result) (q : string)
    (apps : list Application) (r : Result) (a : Application) :
  sort_contract sort ->
  In r (search sort q apps) ->
  nth_error apps (app r) = Some a ->
  score r = app_score q a /\ 0 < score r.
Proof.
  intros C H E. apply (search_incl _ C) in H. apply scan_In in H.
  destruct H as (b & E' & S). rewrite E in E'. now injection E' as <-.
Qed.

(** C1.  For a query [q] and an application whose keyword list is
    [pre ++ k :: post], where no keyword of [pre] contains [q] and [k]
    contains it with first occurrence at [m] ([k] is then the first
    qualifying keyword and its zero-based index is the length of [pre]),
    the score is [(100 - i) * w * (m == 0 ? 10000 : 100) + count]; the
    keywords of [post] play no part: any other tail gives the same score;
    and a result that [search] returns for the application carries that
    score.  The index, the match position and the score expression are
    taken to fit an [int]. *)
Theorem C1_first_keyword_decides_score
    (q : string) (a : Application)
    (pre : list Keyword) (k : Keyword) (post : list Keyword) (m : nat) :
  keywords a = (pre ++ k :: post)%list ->
  none_contains q pre ->
  first_occurrence q (word k) m ->
  Z.of_nat (List.length pre) <= Int.max_value ->
  Z.of_nat m <= Int.max_value ->
  score_in_range (Z.of_nat (List.length pre)) (weight k) m (count a) ->
  app_score q a
  = (100 - Z.of_nat (List.length pre)) * weight k
    * (if Z.of_nat m =? 0 then 10000 else 100) + count a
  /\ (forall post',
        app_score q (with_keywords a (pre ++ k :: post')) = app_score q a)
  /\ (forall sort apps r,
        sort_contract sort -> In r (search sort q apps) ->
        nth_error apps (app r) = Some a ->
        score r = (100 - Z.of_nat (List.length pre)) * weight k
                  * (if Z.of_nat m =? 0 then 10000 else 100) + count a).
Proof.
  intros E N F L M R.
  pose proof (app_score_first q a pre k post m E N F L M R) as S.
  unfold score_value in S. split; [exact S|]. split.
  - intros post'. rewrite S.
    apply (app_score_first q (with_keywords a (pre ++ k :: post')) pre k post' m);
      auto.
  - intros sort apps r C H E'. rewrite <- S.
    now apply (search_result_score sort q apps r a).
Qed.

Lemma first_occurrence_by_find (q s : string) (m : nat) :
  Str.find_at s q 0 = Some m -> first_occurrence q s m.
Proof.
  intros F. destruct (find_at_found _ _ _ _ F) as (m' & E & O).
  simpl in E. now subst.
Qed.

Lemma C1_witness :
  app_score "text" editor = 100 * 1 * 100 + 0
  /\ app_score "text" (with_keywords editor [mkKeyword "plaintext" 1])
     = app_score "text" editor.
Proof.
  assert (R : score_in_range (Z.of_nat (List.length (@nil Keyword))) 1 5 0).
  { unfold score_in_range, score_value, Int.in_range, Int.min_value, Int.max_value.
    simpl. lia. }
  destruct (C1_first_keyword_decides_score "text" editor
              [] (mkKeyword "plaintext" 1)
              [mkKeyword "text" 1000; mkKeyword "editor" 1000] 5) as (S & T & _).
  - reflexivity.
  - intros k [].
  - apply first_occurrence_by_find. reflexivity.
  - unfold Int.max_value. simpl. lia.
  - unfold Int.max_value. simpl. lia.
  - exact R.
  - split; [exact S | exact (T [])].
Defined.

(** C9 as first written gives 100000005 for the query "fire"; the code
    gives ten times that. *)
Lemma C9_counterexample : app_score "fire" firefox <> 100000005.
Proof. vm_compute. discriminate. Qed.

(** C9, amended.  For the application with the keywords
    [("firefox",1000); ("web",1); ("browser",1)] and count 5, the query
    "fire" is a prefix of the keyword "firefox" at index 0, weight 1000, and
    the score is 100 * 1000 * 10000 + 5 = 1000000005; the query "web" is not
    contained in "firefox" and is a prefix of the keyword "web" at index 1,
    weight 1, and the score is 99 * 1 * 10000 + 5 = 990005. *)
Theorem C9_firefox_scores :
  keywords firefox
  = [mkKeyword "firefox" 1000; mkKeyword "web" 1; mkKeyword "browser" 1]
  /\ count firefox = 5
  /\ first_occurrence "fire" "firefox" 0
  /\ app_score "fire" firefox = 1000000005
  /\ 1000000005 = 100 * 1000 * 10000 + 5
  /\ ~ contains "firefox" "web"
  /\ first_occurrence "web" "web" 0
  /\ app_score "web" firefox = 990005
  /\ 990005 = 99 * 1 * 10000 + 5
  /\ search insertion_sort "fire" [firefox] = [mkResult 0 1000000005]
  /\ search insertion_sort "web" [firefox] = [mkResult 0 990005].
Proof.
  repeat split; try (vm_compute; reflexivity).
  - now apply first_occurrence_by_find.
  - intros; lia.
  - now apply (find_at_missing _ _ 0%nat).
  - now apply first_occurrence_by_find.
  - intros; lia.
Qed.

(** C8.  With the empty query the ranking returns the empty sequence,
    whatever the applications are; with a non-empty query [q], an
    application none of whose keywords contains [q] gets the score 0 and has
    no result in the sequence. *)
Theorem C8_no_match_no_result
    (sort : list Result -> list Result) (apps : list Application) :
  search sort "" apps = []
  /\ forall q n a,
       sort_contract sort ->
       nth_error apps n = Some a ->
       none_contains q (keywords a) ->
       app_score q a = 0 /\ ~ listed n (search sort q apps).
Proof.
  split; [reflexivity|]. intros q n a C E N.
  assert (Z0 : app_score q a = 0) by (now apply scan_keywords_none).
  split; [exact Z0|]. intros (r & H & <-).
  destruct (search_result_score sort q apps r a C H E). lia.
Qed.

Lemma C8_witness :
  app_score "zzz" firefox = 0 /\ ~ listed 0 (search insertion_sort "zzz" [firefox]).
Proof.
  apply (proj2 (C8_no_match_no_result insertion_sort [firefox]) "zzz" 0%nat firefox).
  - apply insertion_sort_contract.
  - reflexivity.
  - intros k [<-|[<-|[<-|[]]]]; now apply (find_at_missing _ _ 0%nat).
Defined.

(** C10.  In the vector [results] as the loop of lines 113-131 leaves it
    (before it is sorted and cut), an application has a result if and only
    if its score is strictly positive; every application with a result in
    what [search] returns has a strictly positive score, and when at most
    ten applications have one, each of them is returned.  In particular an
    application whose first keyword containing the query has index 100 or
    more, a weight that is not negative (the indexer gives 1 or 1000) and
    whose count is 0 has a score that is not positive and is not returned,
    although one of its keywords contains the query.  The index, the match
    position and the score expression are taken to fit an [int]. *)
Theorem C10_positive_score_gate
    (sort : list Result -> list Result) (q : string)
    (apps : list Application) (n : nat) (a : Application) :
  sort_contract sort -> q <> "" ->
  nth_error apps n = Some a ->
  (listed n (scan q apps) <-> 0 < app_score q a)
  /\ (listed n (search sort q apps) -> 0 < app_score q a)
  /\ ((List.length (scan q apps) <= 10)%nat ->
      0 < app_score q a -> listed n (search sort q apps))
  /\ (forall pre k post m,
        keywords a = (pre ++ k :: post)%list ->
        none_contains q pre ->
        first_occurrence q (word k) m ->
        (100 <= List.length pre)%nat ->
        0 <= weight k ->
        count a = 0 ->
        Z.of_nat (List.length pre) <= Int.max_value ->
        Z.of_nat m <= Int.max_value ->
        score_in_range (Z.of_nat (List.length pre)) (weight k) m (count a) ->
        contains (word k) q
        /\ app_score q a <= 0
        /\ ~ listed n (scan q apps)
        /\ ~ listed n (search sort q apps)).
Proof.
  intros C N E.
  assert (G : listed n (scan q apps) <-> 0 < app_score q a).
  { split.
    - intros (r & H & <-). apply scan_In in H. destruct H as (b & E' & S1 & S2).
      rewrite E in E'. injection E' as <-. lia.
    - intros P. exists (mkResult n (app_score q a)). split; [|reflexivity].
      apply scan_In. exists a. cbn [app score]. now repeat split. }
  assert (F : listed n (search sort q apps) -> 0 < app_score q a).
  { intros (r & H & <-). destruct (search_result_score sort q apps r a C H E). lia. }
  split; [exact G|]. split; [exact F|]. split.
  - intros L P. apply G in P. destruct P as (r & H & <-). exists r. split; [|reflexivity].
    rewrite (search_cut _ _ _ N).
    rewrite firstn_all2 by (now rewrite (Permutation_length (proj1 (C _)))).
    now apply (Permutation_in _ (Permutation_sym (proj1 (C _)))).
  - intros pre k post m K NC FO I W C0 L M R.
    assert (S : app_score q a <= 0).
    { rewrite (app_score_first q a pre k post m K NC FO L M R).
      unfold score_value. rewrite C0.
      destruct (Z.of_nat m =? 0); nia. }
    split; [exists m; apply FO|]. split; [exact S|].
    split; [rewrite G; lia | intros H; apply F in H; lia].
Qed.

Lemma C10_witness :
  (listed 0 (scan "zed" [late_match "a"]) <-> 0 < app_score "zed" (late_match "a"))
  /\ ~ listed 0 (search insertion_sort "zed" [late_match "a"]).
Proof.
  destruct (C10_positive_score_gate insertion_sort "zed" [late_match "a"] 0
              (late_match "a")) as (G & _ & _ & P).
  - apply insertion_sort_contract.
  - discriminate.
  - reflexivity.
  - split; [exact G|].
    apply (P (repeat (mkKeyword "a" 1) 100) (mkKeyword "zed" 1) [] 0%nat).
    + reflexivity.
    + intros k H. apply repeat_spec in H. subst k.
      now apply (find_at_missing _ _ 0%nat).
    + now apply first_occurrence_by_find.
    + rewrite repeat_length. lia.
    + simpl. lia.
    + reflexivity.
    + rewrite repeat_length. unfold Int.max_value. lia.
    + unfold Int.max_value. simpl. lia.
    + rewrite repeat_length.
      unfold score_in_range, score_value, Int.in_range, Int.min_value, Int.max_value.
      simpl. lia.
Defined.

(** C3 as first written promises the higher score to the prefix match
    for all counts.  Both applications have one keyword of weight 1 at
    index 0; "fire" is a prefix of "firewall" and sits at position 4 of
    "campfire"; the launch count of the second application lifts its score
    above that of the first. *)
Lemma C3_counterexample :
  first_occurrence "fire" "firewall" 0
  /\ first_occurrence "fire" "campfire" 4
  /\ keywords fire_prefix = [mkKeyword "firewall" 1]
  /\ keywords fire_inside = [mkKeyword "campfire" 1]
  /\ app_score "fire" fire_prefix = 1000000
  /\ app_score "fire" fire_inside = 1010000
  /\ ~ app_score "fire" fire_inside < app_score "fire" fire_prefix.
Proof.
  split; [now apply first_occurrence_by_find|].
  split; [now apply first_occurrence_by_find|].
  repeat split; try (vm_compute; reflexivity).
  vm_compute. discriminate.
Qed.

(** C3, amended.  For two applications whose first qualifying keywords
    have the same weight [w] and the same index [i], the query being a
    prefix of the one ([m = 0]) and occurring later in the other ([m > 0]),
    the prefix match has the strictly higher score exactly when
    [count2 - count1 < 9900 * (100 - i) * w], where [count1] is the count of
    the prefix-matching application; this is so for [i < 100], [w >= 1] and
    [count2 - count1 < 9900], and not for all counts.  The index, the match
    position and the two score expressions are taken to fit an [int]. *)
Theorem C3_prefix_dominance
    (q : string) (a1 a2 : Application)
    (pre1 pre2 : list Keyword) (k1 k2 : Keyword) (post1 post2 : list Keyword)
    (m : nat) :
  keywords a1 = (pre1 ++ k1 :: post1)%list ->
  keywords a2 = (pre2 ++ k2 :: post2)%list ->
  none_contains q pre1 -> none_contains q pre2 ->
  List.length pre1 = List.length pre2 ->
  weight k1 = weight k2 ->
  first_occurrence q (word k1) 0 ->
  first_occurrence q (word k2) m -> (0 < m)%nat ->
  Z.of_nat (List.length pre1) <= Int.max_value ->
  Z.of_nat m <= Int.max_value ->
  score_in_range (Z.of_nat (List.length pre1)) (weight k1) 0 (count a1) ->
  score_in_range (Z.of_nat (List.length pre2)) (weight k2) m (count a2) ->
  (app_score q a2 < app_score q a1
   <-> count a2 - count a1
       < 9900 * (100 - Z.of_nat (List.length pre1)) * weight k1)
  /\ ((List.length pre1 < 100)%nat -> 1 <= weight k1 ->
      count a2 - count a1 < 9900 ->
      app_score q a2 < app_score q a1).
Proof.
  intros K1 K2 N1 N2 L W F1 F2 M I1 I2 R1 R2.
  assert (I1' : Z.of_nat (List.length pre2) <= Int.max_value) by (now rewrite <- L).
  assert (Z0 : Z.of_nat 0 <= Int.max_value) by (unfold Int.max_value; simpl; lia).
  rewrite (app_score_first q a1 pre1 k1 post1 0 K1 N1 F1 I1 Z0 R1).
  rewrite (app_score_first q a2 pre2 k2 post2 m K2 N2 F2 I1' I2 R2).
  unfold score_value. rewrite <- L, <- W.
  assert (E : (Z.of_nat m =? 0) = false) by (apply Z.eqb_neq; lia).
  rewrite E. cbn [Z.of_nat Z.eqb].
  split; [split; intros H; nia|]. intros H1 H2 H3. nia.
Qed.

Lemma C3_witness : app_score "fire" fire_inside_rare < app_score "fire" fire_prefix.
Proof.
  assert (R : forall m c, 0 <= c <= 1000000 -> score_in_range (Z.of_nat 0) 1 m c).
  { intros m c Hc.
    unfold score_in_range, score_value, Int.in_range, Int.min_value, Int.max_value.
    cbn [Z.of_nat]. destruct (Z.of_nat m =? 0); lia. }
  apply (C3_prefix_dominance "fire" fire_prefix fire_inside_rare
           [] [] (mkKeyword "firewall" 1) (mkKeyword "campfire" 1) [] [] 4).
  - reflexivity.
  - reflexivity.
  - intros k [].
  - intros k [].
  - reflexivity.
  - reflexivity.
  - now apply first_occurrence_by_find.
  - now apply first_occurrence_by_find.
  - lia.
  - unfold Int.max_value; cbn; lia.
  - unfold Int.max_value; cbn; lia.
  - apply R. cbn. lia.
  - apply R. cbn. lia.
  - cbn. lia.
  - cbn. lia.
  - cbn. lia.
Defined.

(** C2 as first written counts the applications that the query matches.
    Each of the eleven applications below has a keyword that contains
    "zed", at index 100, and count 0; the score of each is 0 and the
    ranking returns nothing. *)
Lemma C2_counterexample :
  List.length eleven_late = 11%nat
  /\ Forall (fun a => Exists (fun k => contains (word k) "zed") (keywords a)) eleven_late
  /\ search insertion_sort "zed" eleven_late = []
  /\ List.length (search insertion_sort "zed" eleven_late) <> 10%nat.
Proof.
  split; [reflexivity|]. split.
  - apply Forall_forall. intros a H. apply in_map_iff in H.
    destruct H as (tag & <- & _). apply Exists_exists. exists (mkKeyword "zed" 1). split.
    + unfold late_match. cbn [keywords]. apply in_or_app. right. now left.
    + exists 0%nat. now apply first_occurrence_by_find.
  - split; [vm_compute; reflexivity | vm_compute; discriminate].
Qed.

(** C2, amended.  For every non-empty query to which more than 10
    applications owe a strictly positive score, the ranking returns exactly
    10 results; their scores never increase along the sequence; they belong
    to 10 different applications, each with its own strictly positive score;
    and every application with a positive score that is left out has a score
    no greater than that of any returned result.  Nothing is said on the
    order of equal scores: [sort] is any function with the contract of
    [std::sort]. *)
Theorem C2_top_ten
    (sort : list Result -> list Result) (q : string) (apps : list Application) :
  sort_contract sort -> q <> "" ->
  (10 < List.length (filter (fun a => (0 <? app_score q a)%Z) apps))%nat ->
  List.length (search sort q apps) = 10%nat
  /\ descending (search sort q apps)
  /\ NoDup (List.map app (search sort q apps))
  /\ (forall r, In r (search sort q apps) ->
        exists a, nth_error apps (app r) = Some a
                  /\ score r = app_score q a /\ 0 < score r)
  /\ (forall n a, nth_error apps n = Some a -> 0 < app_score q a ->
        listed n (search sort q apps)
        \/ forall r, In r (search sort q apps) -> app_score q a <= score r).
Proof.
  intros C N M. unfold scan in *.
  split.
  { rewrite (search_length _ C _ _ N). unfold scan.
    rewrite scan_from_length. lia. }
  split; [now apply search_descending|].
  split; [now apply search_NoDup|].
  split.
  - intros r H. apply (search_incl _ C) in H. now apply scan_In.
  - intros n a E P.
    assert (H : In (mkResult n (app_score q a)) (scan q apps)).
    { apply scan_In. exists a. cbn [app score]. now repeat split. }
    destruct (search_keeps_best _ C q apps _ N H) as [K|K].
    + left. now exists (mkResult n (app_score q a)).
    + right. exact K.
Qed.

Lemma C2_witness :
  List.length (search insertion_sort "fire" twelve) = 10%nat
  /\ (listed 0 (search insertion_sort "fire" twelve)
      \/ forall r, In r (search insertion_sort "fire" twelve) ->
                   app_score "fire" (firefox_counted 1) <= score r).
Proof.
  destruct (C2_top_ten insertion_sort "fire" twelve) as (L & _ & _ & _ & T).
  - apply insertion_sort_contract.
  - discriminate.
  - vm_compute. lia.
  - split; [exact L|]. apply (T 0%nat (firefox_counted 1)).
    + reflexivity.
    + vm_compute. reflexivity.
Defined.

(* ================================================================== *)
(** * The keyword indexer *)

Example firefox_desktop_keywords :
  keywords (read_entry "/usr/share/applications/firefox.desktop" firefox_desktop)
  = [mkKeyword "firefox" 1000; mkKeyword "" 1; mkKeyword "browse" 1;
     mkKeyword "the" 1; mkKeyword "web" 1].
Proof. vm_compute. reflexivity. Qed.

Lemma double_space_tail (c : ascii) (s : string) :
  has_double_space (String c s)
  <-> (c = " "%char /\ begins_with_space s) \/ has_double_space s.
Proof.
  split.
  - intros (a & b & E). destruct a as [|x a]; cbn [append] in E.
    + injection E as E1 E2. subst c s. left. split; [reflexivity | now exists b].
    + injection E as E1 E2. subst x s. right. now exists a, b.
  - intros [[-> (r & ->)] | (a & b & ->)].
    + now exists "", r.
    + now exists (String c a), b.
Qed.

(** The loop hands out an empty word exactly for a delimiter that comes
    first or right after another one. *)
Lemma getline_loop_empty_word (s word : string) :
  In "" (getline_loop " " s word)
  <-> (word = "" /\ begins_with_space s) \/ has_double_space s.
Proof.
  revert word. induction s as [|c s IH]; intros word; cbn [getline_loop].
  - split.
    + destruct word; [intros [] | intros [H|[]]; discriminate].
    + intros [[_ (r & E)] | (a & b & E)]; [discriminate|].
      destruct a; discriminate.
  - rewrite double_space_tail. destruct (Ascii.eqb_spec c " ") as [->|N].
    + cbn [In]. rewrite IH. split.
      * intros [<- | [[_ B] | D]].
        -- left. split; [reflexivity | now exists s].
        -- right. left. now split.
        -- right. now right.
      * intros [[-> _] | [[_ B] | D]]; [now left | right; left; now split | right; now right].
    + rewrite IH. split.
      * intros [[E _] | D]; [destruct word; discriminate | right; now right].
      * intros [[_ (r & E)] | [[E _] | D]]; [congruence | congruence | now right].
Qed.

Lemma getlines_empty_word (s : string) : In "" (getlines " " s) <-> empty_field s.
Proof.
  unfold getlines, empty_field. rewrite getline_loop_empty_word.
  split; [intros [[_ B] | D] | intros [B | D]]; auto.
Qed.

Lemma tolower_space (c : ascii) : Str.tolower c = " "%char <-> c = " "%char.
Proof.
  destruct c as [[] [] [] [] [] [] [] []]; vm_compute; split; congruence.
Qed.

Lemma lowercase_begins_with_space (s : string) :
  begins_with_space (lowercase s) <-> begins_with_space s.
Proof.
  destruct s as [|c s].
  - split; intros (r & E); discriminate.
  - change (lowercase (String c s)) with (String (Str.tolower c) (lowercase s)).
    split; intros (r & E); injection E as E1 E2.
    + apply (proj1 (tolower_space c)) in E1. subst c. now exists s.
    + subst c. now exists (lowercase s).
Qed.

Lemma lowercase_double_space (s : string) :
  has_double_space (lowercase s) <-> has_double_space s.
Proof.
  induction s as [|c s IH].
  - reflexivity.
  - change (lowercase (String c s)) with (String (Str.tolower c) (lowercase s)).
    rewrite !double_space_tail, IH, tolower_space, lowercase_begins_with_space.
    reflexivity.
Qed.

Lemma lowercase_empty_field (s : string) : empty_field (lowercase s) <-> empty_field s.
Proof.
  unfold empty_field. now rewrite lowercase_begins_with_space, lowercase_double_space.
Qed.

Lemma push_words_empty (w : Z) (words : list string) :
  has_empty_keyword (push_words w words []) <-> In "" words.
Proof.
  unfold has_empty_keyword, push_words. cbn [List.app]. split.
  - intros (k & H & E). apply in_map_iff in H. destruct H as (x & <- & H).
    cbn [word] in E. now subst x.
  - intros H. exists (mkKeyword "" w). split; [|reflexivity].
    apply in_map_iff. now exists "".
Qed.

(** C4 as first written: no keyword is empty.  The entry below has a
    name and a comment and no generic name; the string that lines 295-298
    cut into words begins with the space that separates the generic name
    from the comment, and the first word is empty. *)
Lemma C4_counterexample :
  In (mkKeyword "" 1)
     (keywords (read_entry "/usr/share/applications/firefox.desktop" firefox_desktop)).
Proof. vm_compute. right. now left. Qed.

(** C4, amended.  The indexer appends to the keywords of a record one
    keyword of weight 1000 for each word that the [getline] loop cuts out of
    the lower-cased name, then one of weight 1 for each word of the
    lower-cased generic name, a space and the comment.  Only an empty last
    field is skipped: a keyword of these with the empty string as text is
    produced exactly when the name, or the generic name followed by a space
    and the comment, begins with a space or has two spaces in a row; so it is
    for every record without a generic name. *)
Theorem C4_empty_keywords (a : Application) :
  keywords (index_keywords a)
  = (keywords a
     ++ List.map (fun x => mkKeyword x 1000) (name_words a)
     ++ List.map (fun x => mkKeyword x 1) (description_words a))%list
  /\ (has_empty_keyword (push_words 1000 (name_words a) []) <-> empty_field (name a))
  /\ (has_empty_keyword (push_words 1 (description_words a) [])
      <-> empty_field (genericName a ++ String " " (comment a)))
  /\ (genericName a = "" -> In (mkKeyword "" 1) (keywords (index_keywords a))).
Proof.
  split.
  { cbn [index_keywords keywords]. unfold push_words. now rewrite <- app_assoc. }
  split.
  { rewrite push_words_empty. unfold name_words.
    now rewrite getlines_empty_word, lowercase_empty_field. }
  split.
  { rewrite push_words_empty. unfold description_words.
    now rewrite getlines_empty_word, lowercase_empty_field. }
  intros G. cbn [index_keywords keywords]. unfold push_words.
  apply in_or_app. right. apply in_map_iff. exists "". split; [reflexivity|].
  unfold description_words. rewrite getlines_empty_word, lowercase_empty_field, G.
  left. now exists (comment a).
Qed.

(** Every keyword of an indexed entry has the weight 1 or 1000. *)
Lemma push_words_weights (w : Z) (words : list string) (kws : list Keyword) :
  w = 1 \/ w = 1000 ->
  Forall indexer_weight kws -> Forall indexer_weight (push_words w words kws).
Proof.
  intros W F. unfold push_words. apply Forall_app. split; [exact F|].
  apply Forall_forall. intros k H. apply in_map_iff in H.
  destruct H as (x & <- & _). exact W.
Qed.

Lemma parse_line_weights (a : Application) (line : string) :
  Forall indexer_weight (keywords a) ->
  Forall indexer_weight (keywords (parse_line a line)).
Proof.
  intros F. unfold parse_line.
  repeat match goal with
         | |- context [if ?c then _ else _] => destruct c
         end;
    cbn [keywords]; try exact F; (apply push_words_weights; [now left | exact F]).
Qed.

Lemma read_entry_weights (path content : string) :
  Forall indexer_weight (keywords (read_entry path content)).
Proof.
  unfold read_entry.
  assert (G : forall lines a, Forall indexer_weight (keywords a) ->
                Forall indexer_weight (keywords (fold_left parse_line lines a))).
  { induction lines as [|l lines IH]; intros a F; [exact F|].
    cbn [fold_left]. apply IH. now apply parse_line_weights. }
  cbn [index_keywords keywords].
  apply push_words_weights; [now left|].
  apply push_words_weights; [now right|].
  apply G. constructor.
Qed.

(* ================================================================== *)
(** * The query editor *)

Lemma substring_length (s : string) (n m : nat) :
  (n + m <= String.length s)%nat -> String.length (substring n m s) = m.
Proof.
  revert n m. induction s as [|c s IH]; intros n m H; cbn [String.length] in H.
  - assert (n = 0%nat /\ m = 0%nat) as [-> ->] by lia. reflexivity.
  - destruct n as [|n]; cbn [substring].
    + destruct m as [|m]; [reflexivity|]. cbn [String.length]. rewrite IH; lia.
    + apply IH. lia.
Qed.

Lemma erase_one_size (s : string) (pos : Z) :
  0 <= pos < Str.size s ->
  exists s', Str.erase s pos 1 = Ok s' /\ Str.size s' = Str.size s - 1.
Proof.
  intros H. unfold Str.erase.
  assert (C : (Str.size s <? pos) = false) by (apply Z.ltb_ge; lia).
  rewrite C. eexists. split; [reflexivity|].
  unfold Str.size in *. rewrite str_length_append.
  rewrite !substring_length by lia. lia.
Qed.

Lemma substr_size (s : string) (pos n : Z) :
  0 <= pos <= Str.size s -> 0 <= n ->
  exists s', Str.substr s pos n = Ok s'
             /\ Str.size s' = Z.min n (Str.size s - pos).
Proof.
  intros H N. unfold Str.substr.
  assert (C : (Str.size s <? pos) = false) by (apply Z.ltb_ge; lia).
  rewrite C. eexists. split; [reflexivity|].
  unfold Str.size in *. rewrite substring_length by lia. lia.
Qed.

Lemma c_str_char (c : ascii) : c <> zero -> Str.c_str (String c "") = String c "".
Proof.
  intros N. cbn [Str.c_str]. destruct (Ascii.eqb_spec c zero); [contradiction | reflexivity].
Qed.

(** One command keeps the cursor within the query, and makes the query at
    most one character longer. *)
Lemma key_switch_bounds (c : Command) (s : State) :
  cursor_in_bounds s -> textual c ->
  Str.size (query s) + 1 <= Int.max_value ->
  exists s', key_switch (key_of c) s = Ok (Running s')
             /\ cursor_in_bounds s'
             /\ Str.size (query s') <= Str.size (query s) + 1.
Proof.
  unfold cursor_in_bounds. intros B T R.
  assert (W : Size.wrap (cursor s) = cursor s) by (apply size_wrap_small; range).
  destruct c as [| | | | | |c]; unfold key_switch; cbn [key_of keysym textlength text].
  - (* MoveLeft *)
    eexists. split; [reflexivity|]. cbn [set_cursor cursor query].
    split; [|lia]. destruct (0 <? cursor s) eqn:C; [|lia].
    apply Z.ltb_lt in C. unfold Int.sub. rewrite int_wrap_in_range by range. lia.
  - (* MoveRight *)
    eexists. split; [reflexivity|]. cbn [set_cursor cursor query].
    split; [|lia]. rewrite W. destruct (cursor s <? Str.size (query s)) eqn:C.
    + apply Z.ltb_lt in C. unfold Int.add.
      rewrite (int_wrap_in_range (cursor s + 1)) by range.
      rewrite size_wrap_small by range. rewrite int_wrap_in_range by range. lia.
    + rewrite int_wrap_in_range by range. lia.
  - (* MoveHome *)
    eexists. split; [reflexivity|]. cbn [set_cursor cursor query]. lia.
  - (* MoveEnd *)
    eexists. split; [reflexivity|]. cbn [set_cursor cursor query].
    rewrite int_wrap_in_range by range. lia.
  - (* Backspace *)
    destruct (0 <? cursor s) eqn:C.
    + apply Z.ltb_lt in C. unfold Int.sub.
      rewrite int_wrap_in_range by range. rewrite size_wrap_small by range.
      destruct (erase_one_size (query s) (cursor s - 1)) as (q & E & L); [lia|].
      rewrite E. cbn [bind]. eexists. split; [reflexivity|].
      cbn [set_query cursor query]. lia.
    + eexists. split; [reflexivity|]. lia.
  - (* Delete *)
    rewrite W. destruct (cursor s <? Str.size (query s)) eqn:C.
    + apply Z.ltb_lt in C.
      destruct (erase_one_size (query s) (cursor s)) as (q & E & L); [lia|].
      rewrite E. cbn [bind]. eexists. split; [reflexivity|].
      cbn [set_query cursor query]. lia.
    + eexists. split; [reflexivity|]. lia.
  - (* InsertChar *)
    cbn [textual] in T. rewrite W, (c_str_char c T). cbn [Z.eqb Pos.eqb].
    destruct (substr_size (query s) 0 (cursor s)) as (f & E1 & L1); [lia | lia |].
    destruct (substr_size (query s) (cursor s) (Str.size (query s)))
      as (b & E2 & L2); [lia | unfold Str.size; lia |].
    rewrite E1, E2. cbn [bind]. eexists. split; [reflexivity|].
    cbn [set_query cursor query]. unfold Int.add.
    rewrite int_wrap_in_range by range.
    unfold Str.size in *. rewrite !str_length_append. cbn [String.length]. lia.
Qed.

Lemma key_press_bounds (sort : list Result -> list Result)
    (apps : list Application) (c : Command) (s : State) :
  cursor_in_bounds s -> textual c ->
  Str.size (query s) + 1 <= Int.max_value ->
  exists s', key_press sort apps (key_of c) s = Ok (Running s')
             /\ cursor_in_bounds s'
             /\ Str.size (query s') <= Str.size (query s) + 1.
Proof.
  intros B T R. destruct (key_switch_bounds c s B T R) as (s' & E & B' & L).
  unfold key_press, onKeyPress. rewrite E. cbn [bind].
  eexists. split; [reflexivity|]. split; [exact B' | exact L].
Qed.

(** As long as the keys yield characters of text (not the NUL byte), the
    cursor keeps within the query: from a state whose cursor is within
    [0, len(query)], every sequence of MoveLeft, MoveRight, MoveHome,
    MoveEnd, Backspace, Delete and InsertChar commands runs to its end, and
    after each command the cursor is within [0, len(query)] for the query
    of that moment.  The query stays short enough for its length to fit the
    [int] that holds the cursor. *)
Lemma cursor_bounds_of_text
    (sort : list Result -> list Result) (apps : list Application)
    (cmds : list Command) (s : State) :
  cursor_in_bounds s ->
  Forall textual cmds ->
  Str.size (query s) + Z.of_nat (List.length cmds) <= Int.max_value ->
  exists trace,
    key_presses sort apps (List.map key_of cmds) s = Ok trace
    /\ List.length trace = List.length cmds
    /\ Forall cursor_in_bounds trace.
Proof.
  revert s. induction cmds as [|c cmds IH]; intros s B T R.
  - exists []. repeat split. constructor.
  - apply Forall_cons_iff in T. destruct T as [Tc T].
    cbn [List.length] in R.
    destruct (key_press_bounds sort apps c s B Tc) as (s' & E & B' & L); [lia|].
    destruct (IH s' B' T) as (trace & E' & Len & F); [lia|].
    exists (s' :: trace). cbn [List.map key_presses]. rewrite E. cbn [bind].
    rewrite E'. cbn [bind List.length]. repeat split; [now rewrite Len | now constructor].
Qed.

Lemma cursor_bounds_of_text_example :
  exists trace,
    key_presses insertion_sort [firefox] (List.map key_of some_commands) editing_ab
    = Ok trace
    /\ List.length trace = List.length some_commands
    /\ Forall cursor_in_bounds trace.
Proof.
  apply (cursor_bounds_of_text insertion_sort [firefox] some_commands editing_ab).
  - unfold cursor_in_bounds. cbn. lia.
  - repeat constructor; discriminate.
  - unfold Int.max_value. cbn. lia.
Defined.

Example some_commands_cursors :
  match key_presses insertion_sort [firefox] (List.map key_of some_commands) editing_ab with
  | Ok trace => List.map (fun s => (query s, queryi s, cursor s)) trace
  | Throw _ => []
  end
  = [("axb", "axb", 2); ("axb", "axb", 1); ("xb", "xb", 0); ("b", "b", 0);
     ("b", "b", 1); ("b", "b", 1); ("b", "b", 0); ("b", "b", 0); ("b", "b", 0);
     ("Fb", "fb", 1)].
Proof. vm_compute. reflexivity. Qed.

(** C7.  The cursor does not keep within the query for every sequence of
    commands.  A key press for which the lookup stores the single byte NUL
    passes the test [textlength == 1] of line 375; the buffer [text] is
    appended as a C string, so nothing is inserted (line 376), and
    [cursor++] still runs (line 377).  From the empty query with the cursor
    at 0, within bounds, the query stays empty and the cursor goes to 1,
    outside [0, len(query)]; the next character typed makes [substr] throw
    [out_of_range], which nothing catches. *)
Theorem C7_nul_key_breaks_bounds :
  cursor_in_bounds no_query
  /\ (exists s',
        key_press insertion_sort [firefox] (key_of (InsertChar zero)) no_query
        = Ok (Running s')
        /\ query s' = "" /\ cursor s' = 1 /\ ~ cursor_in_bounds s')
  /\ key_presses insertion_sort [firefox] (List.map key_of nul_then_a) no_query
     = Throw out_of_range.
Proof.
  split; [unfold cursor_in_bounds; cbn; lia|]. split.
  - exists (mkState "" "" 0 1 []). split; [vm_compute; reflexivity|].
    split; [reflexivity|]. split; [reflexivity|].
    unfold cursor_in_bounds. cbn. lia.
  - vm_compute. reflexivity.
Qed.

(* ================================================================== *)
(** * The configuration store *)

Example stoi_examples :
  stoi "5" = Ok 5 /\ stoi "  -12abc" = Ok (-12) /\ stoi "+7" = Ok 7
  /\ stoi "many" = Throw invalid_argument /\ stoi "" = Throw invalid_argument
  /\ stoi "4294967296" = Throw out_of_range
  /\ stoi "2147483647" = Ok 2147483647 /\ stoi "-2147483648" = Ok (-2147483648).
Proof. repeat split; vm_compute; reflexivity. Qed.

Example decimal_examples :
  decimal 5 = "5" /\ decimal 0 = "0" /\ decimal 2147483647 = "2147483647"
  /\ decimal (-2147483648) = "-2147483648" /\ decimal 1203 = "1203".
Proof. repeat split; vm_compute; reflexivity. Qed.

(** *** Lines of a text *)

Lemma mem_cons (c d : ascii) (s : string) :
  Str.mem c (String d s) = false <-> c <> d /\ Str.mem c s = false.
Proof.
  cbn [Str.mem]. destruct (Ascii.eqb_spec c d) as [->|N]; cbn [orb]; split.
  - discriminate.
  - intros [N _]. congruence.
  - intros H. now split.
  - now intros [_ H].
Qed.

Lemma mem_append (c : ascii) (a b : string) :
  Str.mem c (a ++ b) = false <-> Str.mem c a = false /\ Str.mem c b = false.
Proof.
  induction a as [|x a IH].
  - cbn. split; [now split | now intros [_ H]].
  - change (String x a ++ b) with (String x (a ++ b)). rewrite !mem_cons, IH. tauto.
Qed.

(** A line without the delimiter, followed by the delimiter, is handed
    out whole. *)
Lemma getline_loop_line (d : ascii) (x rest word : string) :
  Str.mem d x = false ->
  getline_loop d (x ++ String d rest) word = (word ++ x) :: getline_loop d rest "".
Proof.
  revert word. induction x as [|c x IH]; intros word M.
  - cbn [append getline_loop]. rewrite Ascii.eqb_refl. now rewrite str_append_nil_r.
  - apply mem_cons in M. destruct M as [N M].
    change (String c x ++ String d rest) with (String c (x ++ String d rest)).
    cbn [getline_loop]. destruct (Ascii.eqb_spec c d) as [E|_]; [congruence|].
    rewrite (IH _ M). f_equal. rewrite str_append_assoc. reflexivity.
Qed.

Lemma getlines_line (d : ascii) (x rest : string) :
  Str.mem d x = false ->
  getlines d (x ++ String d rest) = x :: getlines d rest.
Proof. intros M. unfold getlines. now rewrite (getline_loop_line d x rest "" M). Qed.

(** *** The split of a record at its last '=' *)

Lemma find_last_of_at_none (v chars : string) (pos : nat) :
  (forall c, Str.mem c chars = true -> Str.mem c v = false) ->
  Str.find_last_of_at v chars pos = None.
Proof.
  revert pos. induction v as [|x v IH]; intros pos H; [reflexivity|].
  cbn [Str.find_last_of_at]. rewrite IH.
  - destruct (Str.mem x chars) eqn:M; [|reflexivity].
    specialize (H x M). apply mem_cons in H. destruct H as [N _]. congruence.
  - intros c M. specialize (H c M). apply mem_cons in H. tauto.
Qed.

Lemma find_last_of_at_record (key val : string) (pos : nat) :
  Str.mem "=" val = false ->
  Str.find_last_of_at (key ++ String "=" val) "=" pos
  = Some (pos + String.length key)%nat.
Proof.
  intros M. revert pos. induction key as [|x key IH]; intros pos.
  - cbn [append Str.find_last_of_at String.length].
    rewrite find_last_of_at_none.
    + cbn. f_equal. lia.
    + intros c H. cbn [Str.mem] in H. rewrite orb_false_r in H.
      apply Ascii.eqb_eq in H. now subst c.
  - change (String x key ++ String "=" val) with (String x (key ++ String "=" val)).
    cbn [Str.find_last_of_at String.length]. rewrite IH. f_equal. lia.
Qed.

Lemma substring_front (a b : string) : substring 0 (String.length a) (a ++ b) = a.
Proof.
  induction a as [|x a IH]; cbn [String.length append substring].
  - now destruct b.
  - now rewrite IH.
Qed.

Lemma substring_whole (s : string) : substring 0 (String.length s) s = s.
Proof. rewrite <- (str_append_nil_r s) at 2. apply substring_front. Qed.

Lemma substring_back (a b : string) :
  substring (String.length a) (String.length b) (a ++ b) = b.
Proof.
  induction a as [|x a IH]; cbn [String.length append substring].
  - apply substring_whole.
  - exact IH.
Qed.

(** A line [key=val] whose value has no '=' is read as the record
    [(key, val)]. *)
Lemma read_line_record (key val : string) (cfg : Config) :
  Str.mem "=" val = false ->
  Str.size key < Int.max_value ->
  read_line (key ++ String "=" val) cfg
  = if Str.find key "/" =? Size.npos then
      Ok (mkConfig (assign_style all_attributes key val (style cfg)) (applications cfg))
    else
      apps <- assign_count (applications cfg) key val ;;
      Ok (mkConfig (style cfg) apps).
Proof.
  intros M L. unfold read_line, Str.find_last_of.
  rewrite (find_last_of_at_record key val 0 M). cbn [Nat.add].
  fold (Str.size key).
  assert (P : 0 <= Str.size key) by (unfold Str.size; lia).
  rewrite int_wrap_in_range by range.
  rewrite size_wrap_small by range.
  assert (N : (Str.size key =? Size.npos) = false)
    by (apply Z.eqb_neq; unfold Size.npos; range).
  rewrite N. unfold Int.add. rewrite int_wrap_in_range by range.
  rewrite size_wrap_small by range.
  assert (T : Str.size (key ++ String "=" val) = Str.size key + 1 + Str.size val).
  { unfold Str.size. rewrite str_length_append. cbn [String.length]. lia. }
  unfold Str.substr, Str.substr_from. rewrite T.
  assert (C1 : (Str.size key + 1 + Str.size val <? 0) = false)
    by (apply Z.ltb_ge; unfold Str.size; lia).
  assert (C2 : (Str.size key + 1 + Str.size val <? Str.size key + 1) = false)
    by (apply Z.ltb_ge; unfold Str.size; lia).
  rewrite C1, C2. cbn [bind].
  replace (Z.to_nat (Z.min (Str.size key) (Str.size key + 1 + Str.size val - 0)))
    with (String.length key) by (unfold Str.size; lia).
  replace (Z.to_nat 0) with 0%nat by reflexivity.
  rewrite substring_front.
  replace (Z.to_nat (Str.size key + 1 + Str.size val - (Str.size key + 1)))
    with (String.length val) by (unfold Str.size; lia).
  replace (Z.to_nat (Str.size key + 1))
    with (String.length (key ++ "=")).
  - replace (key ++ String "=" val) with ((key ++ "=") ++ val)
      by (now rewrite str_append_assoc).
    rewrite substring_back. reflexivity.
  - rewrite str_length_append. unfold Str.size. cbn [String.length]. lia.
Qed.

(** *** Launch count records *)

Lemma assign_count_throw (apps : list Application) (key val : string) (e : exception) :
  In key (List.map id apps) -> stoi val = Throw e ->
  assign_count apps key val = Throw e.
Proof.
  intros H S. induction apps as [|a apps IH]; [destruct H|].
  cbn [assign_count]. destruct (String.eqb_spec (id a) key) as [E|N].
  - now rewrite S.
  - destruct H as [H|H]; [contradiction|]. now rewrite (IH H).
Qed.

Lemma assign_count_absent (apps : list Application) (key val : string) :
  ~ In key (List.map id apps) -> assign_count apps key val = Ok apps.
Proof.
  induction apps as [|a apps IH]; intros H; [reflexivity|].
  cbn [assign_count]. destruct (String.eqb_spec (id a) key) as [E|N].
  - exfalso. apply H. now left.
  - rewrite IH; [reflexivity|]. intros K. apply H. now right.
Qed.

Lemma assign_count_stored (apps : list Application) (key val : string) (n : Z) :
  In key (List.map id apps) -> stoi val = Ok n ->
  exists apps',
    assign_count apps key val = Ok apps'
    /\ List.map id apps' = List.map id apps
    /\ exists x, In x apps' /\ id x = key /\ count x = n.
Proof.
  intros H S. induction apps as [|a apps IH]; [destruct H|].
  cbn [assign_count]. destruct (String.eqb_spec (id a) key) as [E|N].
  - rewrite S. cbn [bind]. exists (set_count a n :: apps).
    split; [reflexivity|]. split; [reflexivity|].
    exists (set_count a n). split; [now left | now split].
  - destruct H as [H|H]; [contradiction|].
    destruct (IH H) as (apps' & -> & I & x & X & K). cbn [bind].
    exists (a :: apps'). split; [reflexivity|]. split; [cbn [List.map]; now rewrite I|].
    exists x. split; [now right | exact K].
Qed.

Lemma occurs_at_length (q s : string) (m : nat) :
  occurs_at q s m -> (m + String.length q <= String.length s)%nat.
Proof. intros (a & b & -> & <-). rewrite !str_length_append. lia. Qed.

(** A key that contains the path separator is taken for an application
    id. *)
Lemma find_separator (key : string) :
  contains key "/" -> Str.size key < Int.max_value ->
  (Str.find key "/" =? Size.npos) = false.
Proof.
  intros C L. unfold Str.find. destruct (Str.find_at key "/" 0) as [p|] eqn:F.
  - destruct (find_at_found _ _ _ _ F) as (m & -> & O & _).
    apply occurs_at_length in O. apply Z.eqb_neq. unfold Size.npos. range.
  - exfalso. now apply (find_at_missing _ _ _ F).
Qed.

Lemma read_lines_app (l1 l2 : list string) (cfg : Config) :
  read_lines (l1 ++ l2) cfg = (cfg' <- read_lines l1 cfg ;; read_lines l2 cfg').
Proof.
  revert cfg. induction l1 as [|l l1 IH]; intros cfg; [reflexivity|].
  cbn [List.app read_lines]. destruct (read_line l cfg); cbn [bind]; [apply IH | reflexivity].
Qed.

(** C5 as first written has the load go on after a count that is not a
    number.  In the file below the record of the application has the value
    "many"; [stoi] throws, nothing catches it, and [readConfig] does not
    return: the record "title=#333333" that follows is never read. *)
Lemma C5_counterexample :
  readConfig (Some bad_config) at_startup = Throw invalid_argument.
Proof. vm_compute. reflexivity. Qed.

(** C5, amended.  When the persisted store is loaded, a record whose key
    contains the path separator and is the id of an application, and whose
    value makes [stoi] throw (no digit after the blanks and the sign, or a
    number outside the range of [int]), ends the load with that exception:
    the records before it have been applied, the records after it are not
    read, and [readConfig] does not return.  A value that [stoi] reads, a
    negative number or a number followed by other characters included, is
    stored as the count of that application.  A record whose key is the id
    of no application is passed over without a look at its value, and the
    load goes on with the records that follow. *)
Theorem C5_bad_count_aborts
    (text : string) (before after : list string) (key val : string)
    (cfg cfg' : Config) :
  getlines "010" text = (before ++ (key ++ String "=" val)%string :: after)%list ->
  read_lines before cfg = Ok cfg' ->
  Str.mem "=" val = false ->
  contains key "/" ->
  Str.size key < Int.max_value ->
  (In key (List.map id (applications cfg')) ->
   forall e, stoi val = Throw e -> readConfig (Some text) cfg = Throw e)
  /\ (In key (List.map id (applications cfg')) ->
      forall n, stoi val = Ok n ->
      exists apps,
        readConfig (Some text) cfg = read_lines after (mkConfig (style cfg') apps)
        /\ List.map id apps = List.map id (applications cfg')
        /\ exists x, In x apps /\ id x = key /\ count x = n)
  /\ (~ In key (List.map id (applications cfg')) ->
      readConfig (Some text) cfg = read_lines after cfg').
Proof.
  intros G B M C L. cbn [readConfig]. rewrite G, read_lines_app, B. cbn [bind read_lines].
  rewrite (read_line_record key val cfg' M L), (find_separator key C L).
  split; [|split].
  - intros H e S. now rewrite (assign_count_throw _ _ _ e H S).
  - intros H n S.
    destruct (assign_count_stored _ _ _ n H S) as (apps & -> & I & X).
    exists apps. cbn [bind]. now repeat split.
  - intros H. rewrite (assign_count_absent _ _ _ H). cbn [bind]. now destruct cfg'.
Qed.

Lemma C5_witness :
  readConfig (Some bad_config) at_startup = Throw invalid_argument.
Proof.
  refine (proj1 (C5_bad_count_aborts bad_config
                   ["[Style]"; "match=#222222"; ""; "[Application Launch Counts]"]
                   ["title=#333333"]
                   "/usr/share/applications/firefox.desktop" "many"
                   at_startup
                   (mkConfig (set_style DEFAULT_STYLE C_MATCH "#222222")
                             [set_count firefox 0])
                   _ _ _ _ _) _ invalid_argument _).
  - vm_compute. reflexivity.
  - vm_compute. reflexivity.
  - reflexivity.
  - exists 0%nat. now apply first_occurrence_by_find.
  - unfold Int.max_value. cbn. lia.
  - cbn. now left.
  - vm_compute. reflexivity.
Defined.

(** A count that is a negative number, or a number followed by other
    characters, is read and stored. *)
Example negative_count_is_stored :
  List.map count
    (match readConfig (Some "/usr/share/applications/firefox.desktop=-3 times")
             at_startup with
     | Ok cfg => applications cfg
     | Throw _ => []
     end)
  = [-3].
Proof. vm_compute. reflexivity. Qed.

(** *** Style records *)

Lemma attribute_name_facts (t : StyleAttribute) :
  Str.find (STYLE_ATTRIBUTES t) "/" = Size.npos
  /\ Str.mem "010" (STYLE_ATTRIBUTES t) = false
  /\ Str.size (STYLE_ATTRIBUTES t) < Int.max_value.
Proof. destruct t; repeat split; reflexivity. Qed.

Lemma assign_style_name (t : StyleAttribute) (v : string) (st : Style) :
  assign_style all_attributes (STYLE_ATTRIBUTES t) v st = set_style st t v.
Proof. destruct t; reflexivity. Qed.

(** With one attribute away from its default, one style record is
    written. *)
Lemma write_styles_one (t : StyleAttribute) (v : string) :
  v <> DEFAULT_STYLE t ->
  write_styles all_attributes (set_style DEFAULT_STYLE t v)
  = STYLE_ATTRIBUTES t ++ "=" ++ v ++ newline.
Proof.
  intros H. apply String.eqb_neq in H.
  destruct t; cbn in H |- *; rewrite H; cbn; rewrite ?str_append_nil_r; reflexivity.
Qed.

Lemma set_style_same (st : Style) (t : StyleAttribute) (v : string) :
  set_style st t v t = v.
Proof. unfold set_style. destruct (attribute_eq_dec t t); [reflexivity | contradiction]. Qed.

Lemma set_style_other (st : Style) (t u : StyleAttribute) (v : string) :
  u <> t -> set_style st t v u = st u.
Proof. intros N. unfold set_style. destruct (attribute_eq_dec u t); [contradiction | reflexivity]. Qed.

Lemma set_count_back (a : Application) : set_count (set_count a 0) (count a) = a.
Proof. now destruct a. Qed.

Lemma set_count_zero (b : Application) : count b = 0 -> set_count b 0 = b.
Proof. destruct b. cbn. now intros ->. Qed.

(** *** The values that the program holds in its style map *)

Lemma getline_loop_words (d : ascii) (s word w : string) :
  Str.mem d word = false -> In w (getline_loop d s word) -> Str.mem d w = false.
Proof.
  revert word. induction s as [|c s IH]; intros word M H; cbn [getline_loop] in H.
  - destruct word; [destruct H | destruct H as [<-|[]]; exact M].
  - destruct (Ascii.eqb_spec c d) as [->|N].
    + destruct H as [<-|H]; [exact M | now apply (IH "")].
    + apply (IH _ ) in H; [exact H|]. apply mem_append. split; [exact M|].
      apply mem_cons. split; [congruence | reflexivity].
Qed.

Lemma getlines_no_delimiter (d : ascii) (s w : string) :
  In w (getlines d s) -> Str.mem d w = false.
Proof. now apply getline_loop_words. Qed.

Lemma find_last_of_at_tail (line : string) (pos : nat) :
  Str.find_last_of_at line "=" pos = None -> Str.mem "=" line = false.
Proof.
  revert pos. induction line as [|x line IH]; intros pos F; [reflexivity|].
  cbn [Str.find_last_of_at] in F.
  destruct (Str.find_last_of_at line "=" (S pos)) eqn:G; [discriminate|].
  cbn [Str.mem] in F. rewrite orb_false_r in F.
  destruct (Ascii.eqb x "=") eqn:E; [discriminate|].
  apply mem_cons. split; [|now apply (IH (S pos))].
  apply Ascii.eqb_neq in E. congruence.
Qed.

(** A line is cut at its last '='. *)
Lemma find_last_of_at_split (line : string) (pos p : nat) :
  Str.find_last_of_at line "=" pos = Some p ->
  exists key val, line = key ++ String "=" val
                  /\ p = (pos + String.length key)%nat
                  /\ Str.mem "=" val = false.
Proof.
  revert pos. induction line as [|c line IH]; intros pos; cbn [Str.find_last_of_at].
  - discriminate.
  - destruct (Str.find_last_of_at line "=" (S pos)) as [p'|] eqn:F.
    + intros [= <-]. destruct (IH _ F) as (key & val & -> & -> & M).
      exists (String c key), val. cbn [append String.length].
      split; [reflexivity|]. split; [lia | exact M].
    + cbn [Str.mem]. rewrite orb_false_r.
      destruct (Ascii.eqb c "=") eqn:E; [|discriminate].
      apply Ascii.eqb_eq in E. subst c. intros [= <-].
      exists "", line. cbn [append String.length].
      split; [reflexivity|]. split; [lia | now apply (find_last_of_at_tail _ (S pos))].
Qed.

Lemma assign_style_values (attrs : list StyleAttribute) (key val : string)
    (st : Style) (t : StyleAttribute) :
  assign_style attrs key val st t = val \/ assign_style attrs key val st t = st t.
Proof.
  induction attrs as [|u attrs IH]; cbn [assign_style]; [now right|].
  destruct (key =? STYLE_ATTRIBUTES u)%string; [|exact IH].
  unfold set_style. destruct (attribute_eq_dec t u); [now left | now right].
Qed.

Lemma default_style_storable (t : StyleAttribute) : storable (DEFAULT_STYLE t).
Proof. destruct t; split; reflexivity. Qed.

Lemma read_line_storable (line : string) (cfg cfg' : Config) :
  Str.mem "010" line = false ->
  Str.size line < Int.max_value ->
  (forall t, storable (style cfg t)) ->
  read_line line cfg = Ok cfg' ->
  forall t, storable (style cfg' t).
Proof.
  intros NL L S R.
  destruct (Str.find_last_of_at line "=" 0) as [p|] eqn:F.
  - destruct (find_last_of_at_split _ _ _ F) as (key & val & -> & _ & M).
    apply mem_append in NL. destruct NL as [_ NL]. apply mem_cons in NL.
    assert (K : Str.size key < Int.max_value).
    { unfold Str.size in *. rewrite str_length_append in L. lia. }
    rewrite (read_line_record key val cfg M K) in R.
    destruct (Str.find key "/" =? Size.npos).
    + assert (E : cfg' = mkConfig (assign_style all_attributes key val (style cfg))
                                  (applications cfg)) by congruence.
      intros t. rewrite E. cbn [style].
      destruct (assign_style_values all_attributes key val (style cfg) t) as [-> | ->];
        [split; tauto | apply S].
    + destruct (assign_count (applications cfg) key val); [|discriminate].
      injection R as <-. exact S.
  - unfold read_line, Str.find_last_of in R. rewrite F in R.
    injection R as <-. exact S.
Qed.

Lemma read_lines_storable (lines : list string) (cfg cfg' : Config) :
  Forall (fun line => Str.mem "010" line = false) lines ->
  Forall (fun line => Str.size line < Int.max_value) lines ->
  (forall t, storable (style cfg t)) ->
  read_lines lines cfg = Ok cfg' ->
  forall t, storable (style cfg' t).
Proof.
  revert cfg. induction lines as [|line lines IH]; intros cfg NL L S R.
  - injection R as <-. exact S.
  - cbn [read_lines] in R. apply Forall_cons_iff in NL, L.
    destruct (read_line line cfg) as [c|] eqn:E; [|discriminate].
    cbn [bind] in R. apply (IH c); try tauto.
    apply (read_line_storable line cfg c); tauto.
Qed.

(** Whatever file is loaded at start-up, every value of the style map is
    without '=' and without line feed: the values that [writeConfig] is
    asked to save are of this kind. *)
Lemma readConfig_storable (file : option string) (cfg' : Config)
    (apps : list Application) :
  (forall content, file = Some content ->
     Forall (fun line => Str.size line < Int.max_value) (getlines "010" content)) ->
  readConfig file (mkConfig DEFAULT_STYLE apps) = Ok cfg' ->
  forall t, storable (style cfg' t).
Proof.
  intros L R. destruct file as [content|]; cbn [readConfig] in R.
  - apply (read_lines_storable (getlines "010" content) (mkConfig DEFAULT_STYLE apps)).
    + apply Forall_forall. intros w. apply getlines_no_delimiter.
    + now apply L.
    + intros t. apply default_style_storable.
    + exact R.
  - injection R as <-. intros t. apply default_style_storable.
Qed.

(** *** Saving, then loading *)

Lemma newline_append (r : string) : newline ++ r = String "010" r.
Proof. reflexivity. Qed.

Lemma record_append (k v r : string) :
  (k ++ "=" ++ v ++ newline) ++ r = (k ++ String "=" v) ++ String "010" r.
Proof.
  rewrite !str_append_assoc. reflexivity.
Qed.

Lemma write_counts_pair (a b : Application) (apps : list Application) :
  count a = 5 -> count b = 0 ->
  apps = [a; b] \/ apps = [b; a] ->
  write_counts apps = id a ++ "=" ++ "5" ++ newline.
Proof.
  intros A B [-> | ->]; cbn [write_counts]; rewrite A, B;
    change (0 <? 5) with true; change (0 <? 0) with false;
    change (decimal 5) with "5"; cbn iota.
  - cbn [append]. now rewrite str_append_nil_r.
  - cbn [append]. now rewrite str_append_nil_r.
Qed.

Lemma mem_record (c : ascii) (k v : string) :
  c <> "="%char -> Str.mem c k = false -> Str.mem c v = false ->
  Str.mem c (k ++ String "=" v) = false.
Proof. intros N K V. apply mem_append. split; [exact K|]. apply mem_cons. now split. Qed.

Lemma getlines_blank (d : ascii) (rest : string) :
  getlines d (String d rest) = "" :: getlines d rest.
Proof. exact (getlines_line d "" rest eq_refl). Qed.

(** The lines of the file after [writeConfig], for one attribute away
    from its default and the counts 5 and 0. *)
Lemma saved_lines (t : StyleAttribute) (v : string) (a b : Application)
    (apps : list Application) :
  v <> DEFAULT_STYLE t ->
  Str.mem "010" v = false ->
  Str.mem "010" (id a) = false ->
  count a = 5 -> count b = 0 ->
  apps = [a; b] \/ apps = [b; a] ->
  getlines "010" (writeConfig (mkConfig (set_style DEFAULT_STYLE t v) apps))
  = [ "[Style]";
      STYLE_ATTRIBUTES t ++ String "=" v;
      "";
      "[Application Launch Counts]";
      id a ++ String "=" "5" ].
Proof.
  intros D V I A B O. unfold writeConfig. cbn [style applications].
  rewrite (write_styles_one t v D), (write_counts_pair a b apps A B O).
  rewrite newline_append, record_append, newline_append.
  rewrite <- (str_append_nil_r (id a ++ "=" ++ "5" ++ newline)), record_append.
  destruct (attribute_name_facts t) as (_ & N & _).
  rewrite getlines_line by reflexivity.
  rewrite getlines_line by (apply mem_record; [discriminate | exact N | exact V]).
  rewrite getlines_blank, newline_append.
  rewrite getlines_line by reflexivity.
  rewrite getlines_line by (apply mem_record; [discriminate | exact I | reflexivity]).
  reflexivity.
Qed.

Lemma read_line_plain (line : string) (cfg : Config) :
  Str.mem "=" line = false -> read_line line cfg = Ok cfg.
Proof.
  intros M. unfold read_line, Str.find_last_of.
  rewrite find_last_of_at_none; [reflexivity|].
  intros c H. cbn [Str.mem] in H. rewrite orb_false_r in H.
  apply Ascii.eqb_eq in H. now subst c.
Qed.

Lemma assign_count_pair (a b : Application) (apps : list Application) :
  count a = 5 -> count b = 0 -> id a <> id b ->
  apps = [a; b] \/ apps = [b; a] ->
  assign_count (List.map (fun x => set_count x 0) apps) (id a) "5" = Ok apps.
Proof.
  intros A B N [-> | ->]; cbn [List.map assign_count set_count id].
  - rewrite String.eqb_refl. change (stoi "5") with (@Ok Z 5). cbn [bind].
    rewrite <- A. fold (set_count a 0). fold (set_count (set_count a 0) (count a)).
    now rewrite set_count_back, (set_count_zero b B).
  - assert (E : (id b =? id a)%string = false) by (apply String.eqb_neq; congruence).
    rewrite E, String.eqb_refl. change (stoi "5") with (@Ok Z 5). cbn [bind].
    rewrite <- A. fold (set_count a 0). fold (set_count (set_count a 0) (count a)).
    fold (set_count b 0).
    now rewrite set_count_back, (set_count_zero b B).
Qed.

(** C6.  A style map with the attribute [t] set to [v], away from its
    default, and the applications A with count 5 and B with count 0 are
    saved; loading the saved text into the state of a fresh start (default
    style, all counts 0) gives back [v] for [t], the default for every other
    attribute, 5 for A and 0 for B.  B has no record in the saved text.  The
    value [v] is one that a style record can hold (it is without '=' and
    without line feed, as every value of the style map of the program, see
    [readConfig_storable]), and the id of A is a path ('/' in it, no line
    feed, a length that fits an [int]). *)
Theorem C6_round_trip
    (t : StyleAttribute) (v : string) (a b : Application)
    (apps : list Application) :
  v <> DEFAULT_STYLE t ->
  storable v ->
  count a = 5 -> count b = 0 ->
  id a <> id b ->
  apps = [a; b] \/ apps = [b; a] ->
  contains (id a) "/" ->
  Str.mem "010" (id a) = false ->
  Str.size (id a) < Int.max_value ->
  exists loaded,
    readConfig (Some (writeConfig (mkConfig (set_style DEFAULT_STYLE t v) apps)))
               (mkConfig DEFAULT_STYLE (List.map (fun x => set_count x 0) apps))
    = Ok loaded
    /\ style loaded t = v
    /\ (forall u, u <> t -> style loaded u = DEFAULT_STYLE u)
    /\ applications loaded = apps
    /\ (forall x, In x (applications loaded) -> id x = id a -> count x = 5)
    /\ (forall x, In x (applications loaded) -> id x = id b -> count x = 0)
    /\ write_counts apps = id a ++ "=" ++ "5" ++ newline.
Proof.
  intros D [E V] A B N O C I L.
  exists (mkConfig (set_style DEFAULT_STYLE t v) apps).
  split.
  - cbn [readConfig]. rewrite (saved_lines t v a b apps D V I A B O).
    destruct (attribute_name_facts t) as (F & _ & Lt).
    cbn [read_lines].
    rewrite read_line_plain by reflexivity. cbn [bind].
    rewrite (read_line_record _ v _ E Lt), F, Z.eqb_refl. cbn [bind style applications].
    rewrite assign_style_name.
    rewrite read_line_plain by reflexivity. cbn [bind].
    rewrite read_line_plain by reflexivity. cbn [bind].
    rewrite (read_line_record (id a) "5" _ eq_refl L), (find_separator _ C L).
    cbn [style applications].
    rewrite (assign_count_pair a b apps A B N O). reflexivity.
  - cbn [style applications].
    split; [apply set_style_same|].
    split; [intros u H; now apply set_style_other|].
    split; [reflexivity|].
    split; [|split; [|now apply (write_counts_pair a b)]].
    + intros x H K. destruct O as [-> | ->]; destruct H as [<-|[<-|[]]]; congruence.
    + intros x H K. destruct O as [-> | ->]; destruct H as [<-|[<-|[]]]; congruence.
Qed.

Lemma C6_witness :
  exists loaded,
    readConfig (Some (writeConfig (mkConfig red_highlight [editor; firefox])))
               (mkConfig DEFAULT_STYLE
                  (List.map (fun x => set_count x 0) [editor; firefox]))
    = Ok loaded
    /\ style loaded C_HIGHLIGHT = "#ff0000"
    /\ (forall u, u <> C_HIGHLIGHT -> style loaded u = DEFAULT_STYLE u)
    /\ applications loaded = [editor; firefox]
    /\ (forall x, In x (applications loaded) -> id x = id firefox -> count x = 5)
    /\ (forall x, In x (applications loaded) -> id x = id editor -> count x = 0)
    /\ write_counts [editor; firefox] = id firefox ++ "=" ++ "5" ++ newline.
Proof.
  apply (C6_round_trip C_HIGHLIGHT "#ff0000" firefox editor [editor; firefox]).
  - discriminate.
  - split; reflexivity.
  - reflexivity.
  - reflexivity.
  - discriminate.
  - now right.
  - exists 0%nat. now apply first_occurrence_by_find.
  - reflexivity.
  - unfold Int.max_value. cbn. lia.
Defined.

Example saved_text :
  writeConfig (mkConfig red_highlight [editor; firefox])
  = "[Style]" ++ newline
    ++ "highlight=#ff0000" ++ newline
    ++ newline
    ++ "[Application Launch Counts]" ++ newline
    ++ "/usr/share/applications/firefox.desktop=5" ++ newline.
Proof. vm_compute. reflexivity. Qed.

(** *** Counts in general: [stoi] reads back what [operator<<] prints *)

Lemma digit_of_digit_char (d : Z) : 0 <= d < 10 -> digit (digit_char d) = Some d.
Proof.
  intros H.
  assert (C : d = 0 \/ d = 1 \/ d = 2 \/ d = 3 \/ d = 4 \/ d = 5 \/ d = 6
              \/ d = 7 \/ d = 8 \/ d = 9) by lia.
  repeat (destruct C as [-> | C]; [reflexivity|]). now subst.
Qed.

Lemma digit_char_plain (d : Z) :
  0 <= d < 10 ->
  isspace (digit_char d) = false
  /\ digit_char d <> "-"%char /\ digit_char d <> "+"%char.
Proof.
  intros H.
  assert (C : d = 0 \/ d = 1 \/ d = 2 \/ d = 3 \/ d = 4 \/ d = 5 \/ d = 6
              \/ d = 7 \/ d = 8 \/ d = 9) by lia.
  repeat (destruct C as [-> | C]; [repeat split; discriminate|]).
  subst. repeat split; discriminate.
Qed.

Lemma read_number_digits (fuel : nat) (n : Z) (acc : string) :
  0 <= n < 10 ^ (Z.of_nat fuel + 1) ->
  read_number (digits fuel n acc) = Some (read_digits acc n).
Proof.
  revert n acc. induction fuel as [|fuel IH]; intros n acc H.
  - cbn [digits read_number]. change (10 ^ (Z.of_nat 0 + 1)) with 10 in H.
    rewrite Z.mod_small by lia. now rewrite digit_of_digit_char.
  - cbn [digits]. destruct (n <? 10) eqn:C.
    + apply Z.ltb_lt in C. cbn [read_number].
      rewrite Z.mod_small by lia. now rewrite digit_of_digit_char by lia.
    + apply Z.ltb_ge in C. rewrite IH.
      * cbn [read_digits].
        rewrite digit_of_digit_char by (apply Z.mod_pos_bound; lia).
        do 2 f_equal. rewrite (Z.div_mod n 10) at 3 by lia. lia.
      * replace (Z.of_nat (S fuel) + 1) with (Z.succ (Z.of_nat fuel + 1)) in H by lia.
        rewrite Z.pow_succ_r in H by lia.
        split; [apply Z.div_pos; lia | apply Z.div_lt_upper_bound; lia].
Qed.

Lemma digits_head (fuel : nat) (n : Z) (acc : string) :
  0 <= n ->
  exists d rest, 0 <= d < 10 /\ digits fuel n acc = String (digit_char d) rest.
Proof.
  revert n acc. induction fuel as [|fuel IH]; intros n acc H.
  - exists (n mod 10), acc. split; [apply Z.mod_pos_bound; lia | reflexivity].
  - cbn [digits]. destruct (n <? 10).
    + exists (n mod 10), acc. split; [apply Z.mod_pos_bound; lia | reflexivity].
    + apply IH. apply Z.div_pos; lia.
Qed.

(** A count that has been written is read back as it was. *)
Lemma stoi_decimal (n : Z) : 0 <= n <= Int.max_value -> stoi (decimal n) = Ok n.
Proof.
  intros H. unfold decimal.
  assert (C : (n <? 0) = false) by (apply Z.ltb_ge; lia). rewrite C.
  pose proof (read_number_digits 9 n "") as R.
  destruct (digits_head 9 n "" (proj1 H)) as (d & rest & D & E).
  destruct (digit_char_plain d D) as (S1 & S2 & S3).
  unfold stoi. rewrite E in *. cbn [skip_spaces]. rewrite S1.
  assert (P : match String (digit_char d) rest with
              | String "-" r => (true, r)
              | String "+" r => (false, r)
              | _ => (false, String (digit_char d) rest)
              end = (false, String (digit_char d) rest)).
  { destruct (digit_char d) as [[] [] [] [] [] [] [] []]; try reflexivity; congruence. }
  rewrite P. cbn [fst snd]. rewrite R by (unfold Int.max_value in H; cbn; lia).
  cbn [read_digits].
  assert (Q : (Int.min_value <=? n) && (n <=? Int.max_value) = true).
  { apply andb_true_intro. split; apply Z.leb_le; unfold Int.min_value; lia. }
  now rewrite Q.
Qed.

(* ================================================================== *)
(** * Further properties of the code *)

(** ** lowercase *)

Lemma tolower_idempotent (c : ascii) : Str.tolower (Str.tolower c) = Str.tolower c.
Proof. destruct c as [[] [] [] [] [] [] [] []]; reflexivity. Qed.

Lemma lowercase_append (a b : string) : lowercase (a ++ b) = lowercase a ++ lowercase b.
Proof.
  induction a as [|c a IH]; [reflexivity|].
  change (lowercase (String c a ++ b)) with (String (Str.tolower c) (lowercase (a ++ b))).
  now rewrite IH.
Qed.

Lemma lowercase_length (s : string) : String.length (lowercase s) = String.length s.
Proof.
  induction s as [|c s IH]; [reflexivity|].
  change (lowercase (String c s)) with (String (Str.tolower c) (lowercase s)).
  cbn [String.length]. now rewrite IH.
Qed.

(** X1.  [lowercase] keeps the length of its argument, changes nothing in
    a string that it has produced, and goes through concatenation. *)
Theorem lowercase_stable (s t : string) :
  Str.size (lowercase s) = Str.size s
  /\ lowercase (lowercase s) = lowercase s
  /\ lowercase (s ++ t) = lowercase s ++ lowercase t.
Proof.
  split; [unfold Str.size; now rewrite lowercase_length|].
  split; [|apply lowercase_append].
  induction s as [|c s IH]; [reflexivity|].
  change (lowercase (String c s)) with (String (Str.tolower c) (lowercase s)).
  change (lowercase (String (Str.tolower c) (lowercase s)))
    with (String (Str.tolower (Str.tolower c)) (lowercase (lowercase s))).
  now rewrite tolower_idempotent, IH.
Qed.

(** ** search *)

Lemma search_at_most_ten (sort : list Result -> list Result) (q : string)
    (apps : list Application) :
  (List.length (search sort q apps) <= 10)%nat.
Proof.
  unfold search. destruct (0 <? Str.size q); [|cbn; lia]. cbv zeta.
  destruct (10 <? Z.of_nat (List.length (sort (scan q apps)))) eqn:C.
  - rewrite length_firstn. lia.
  - apply Z.ltb_ge in C. lia.
Qed.

(** X2.  Whatever the query and the applications are, [search] returns at
    most ten results, with scores that never increase along the sequence,
    for different applications; each result points to an application of the
    vector and carries the score of that application, which is strictly
    positive.  [sort] is any function with the contract of [std::sort]. *)
Theorem search_results_valid
    (sort : list Result -> list Result) (q : string) (apps : list Application) :
  sort_contract sort ->
  (List.length (search sort q apps) <= 10)%nat
  /\ descending (search sort q apps)
  /\ NoDup (List.map app (search sort q apps))
  /\ forall r, In r (search sort q apps) ->
       (app r < List.length apps)%nat
       /\ exists a, nth_error apps (app r) = Some a
                    /\ score r = app_score q a /\ 0 < score r.
Proof.
  intros C. split; [apply search_at_most_ten|].
  split; [now apply search_descending|].
  split; [now apply search_NoDup|].
  intros r H. apply (search_incl _ C) in H. apply scan_In in H.
  destruct H as (a & E & S). split; [|now exists a].
  apply nth_error_Some. congruence.
Qed.

Lemma search_results_valid_witness :
  (List.length (search insertion_sort "fire" twelve) <= 10)%nat
  /\ descending (search insertion_sort "fire" twelve).
Proof.
  destruct (search_results_valid insertion_sort "fire" twelve insertion_sort_contract)
    as (L & D & _).
  now split.
Defined.

Lemma contains_first_occurrence (s q : string) :
  contains s q -> exists m, first_occurrence q s m /\ (m <= String.length s)%nat.
Proof.
  intros C. destruct (Str.find_at s q 0) as [p|] eqn:F.
  - destruct (find_at_found _ _ _ _ F) as (m & _ & O). exists m. split; [exact O|].
    destruct O as ((a & b & -> & <-) & _). rewrite str_length_append. lia.
  - exfalso. now apply (find_at_missing _ _ _ F).
Qed.

(** X3.  An application is found when the query is contained in one of
    its first hundred keywords: if the first keyword that contains the query
    has an index below 100 and a weight that the indexer gives (1 or 1000),
    and the count is between 0 and 1147483647, then the score is at least
    100 plus the count, without overflow, and the application has a result
    in [results] after the scan. *)
Theorem match_within_hundred_is_listed
    (q : string) (apps : list Application) (n : nat) (a : Application)
    (pre : list Keyword) (k : Keyword) (post : list Keyword) :
  nth_error apps n = Some a ->
  keywords a = (pre ++ k :: post)%list ->
  none_contains q pre ->
  contains (word k) q ->
  (List.length pre < 100)%nat ->
  indexer_weight k ->
  0 <= count a <= 1147483647 ->
  Str.size (word k) <= Int.max_value ->
  100 + count a <= app_score q a <= Int.max_value
  /\ listed n (scan q apps).
Proof.
  intros E K N C I W Cn L.
  destruct (contains_first_occurrence _ _ C) as (m & F & M).
  assert (R : score_in_range (Z.of_nat (List.length pre)) (weight k) m (count a)).
  { unfold score_in_range, score_value, Int.in_range, Int.min_value, Int.max_value.
    destruct W as [-> | ->]; destruct (Z.of_nat m =? 0); lia. }
  assert (S : app_score q a
              = score_value (Z.of_nat (List.length pre)) (weight k) m (count a)).
  { apply (app_score_first q a pre k post m K N F); [range | range | exact R]. }
  assert (B : 100 + count a <= app_score q a <= Int.max_value).
  { rewrite S. unfold score_value, Int.max_value.
    destruct W as [-> | ->]; destruct (Z.of_nat m =? 0); lia. }
  split; [exact B|].
  exists (mkResult n (app_score q a)). split; [|reflexivity].
  apply scan_In. exists a. cbn [app score]. repeat split; [exact E | lia].
Qed.

Lemma match_within_hundred_is_listed_witness :
  100 + count editor <= app_score "text" editor <= Int.max_value
  /\ listed 1 (scan "text" [firefox; editor]).
Proof.
  apply (match_within_hundred_is_listed "text" [firefox; editor] 1 editor
           [] (mkKeyword "plaintext" 1) [mkKeyword "text" 1000; mkKeyword "editor" 1000]).
  - reflexivity.
  - reflexivity.
  - intros k [].
  - exists 5%nat. apply first_occurrence_by_find. reflexivity.
  - cbn. lia.
  - now left.
  - cbn. lia.
  - unfold Int.max_value. cbn. lia.
Defined.

(** ** getApplications *)

Lemma find_at_from (s q : string) (pos p : nat) :
  Str.find_at s q pos = Some p -> (pos <= p)%nat.
Proof. intros F. destruct (find_at_found _ _ _ _ F) as (m & -> & _). lia. Qed.

Lemma begins_with_prefix (line key : string) : begins_with line key = prefix key line.
Proof.
  unfold begins_with, Str.find.
  destruct line as [|c line]; cbn [Str.find_at]; destruct (prefix key _) eqn:P;
    try reflexivity.
  destruct (Str.find_at line key 1) as [p|] eqn:F; [|reflexivity].
  apply find_at_from in F. apply Z.eqb_neq. lia.
Qed.

(** One line of the entry is five tests in a row. *)
Lemma parse_line_steps (a : Application) (line : string) :
  parse_line a line
  = read_hints line (read_cmd line (read_comment line
      (read_genericName line (read_name line a)))).
Proof. reflexivity. Qed.

Ltac one_test :=
  intros;
  unfold read_name, read_genericName, read_comment, read_cmd, read_hints;
  match goal with
  | |- context [if ?c then _ else _] => destruct c
  end;
  repeat split; reflexivity.

Lemma read_name_others (line : string) (a : Application) :
  id (read_name line a) = id a /\ genericName (read_name line a) = genericName a
  /\ comment (read_name line a) = comment a /\ cmd (read_name line a) = cmd a
  /\ keywords (read_name line a) = keywords a /\ count (read_name line a) = count a.
Proof. one_test. Qed.

Lemma read_genericName_others (line : string) (a : Application) :
  id (read_genericName line a) = id a /\ name (read_genericName line a) = name a
  /\ comment (read_genericName line a) = comment a
  /\ cmd (read_genericName line a) = cmd a
  /\ keywords (read_genericName line a) = keywords a
  /\ count (read_genericName line a) = count a.
Proof. one_test. Qed.

Lemma read_comment_others (line : string) (a : Application) :
  id (read_comment line a) = id a /\ name (read_comment line a) = name a
  /\ genericName (read_comment line a) = genericName a
  /\ cmd (read_comment line a) = cmd a
  /\ keywords (read_comment line a) = keywords a
  /\ count (read_comment line a) = count a.
Proof. one_test. Qed.

Lemma read_cmd_others (line : string) (a : Application) :
  id (read_cmd line a) = id a /\ name (read_cmd line a) = name a
  /\ genericName (read_cmd line a) = genericName a
  /\ comment (read_cmd line a) = comment a
  /\ keywords (read_cmd line a) = keywords a
  /\ count (read_cmd line a) = count a.
Proof. one_test. Qed.

Lemma read_hints_others (line : string) (a : Application) :
  id (read_hints line a) = id a /\ name (read_hints line a) = name a
  /\ genericName (read_hints line a) = genericName a
  /\ comment (read_hints line a) = comment a
  /\ cmd (read_hints line a) = cmd a
  /\ count (read_hints line a) = count a.
Proof. one_test. Qed.

(** The fields that the tests before and after leave alone are rewritten
    away. *)
Ltac other_tests :=
  repeat first
    [ rewrite (proj1 (read_hints_others _ _))
    | rewrite (proj1 (proj2 (read_hints_others _ _)))
    | rewrite (proj1 (proj2 (proj2 (read_hints_others _ _))))
    | rewrite (proj1 (proj2 (proj2 (proj2 (read_hints_others _ _)))))
    | rewrite (proj1 (proj2 (proj2 (proj2 (proj2 (read_hints_others _ _))))))
    | rewrite (proj2 (proj2 (proj2 (proj2 (proj2 (read_hints_others _ _))))))
    | rewrite (proj1 (read_cmd_others _ _))
    | rewrite (proj1 (proj2 (read_cmd_others _ _)))
    | rewrite (proj1 (proj2 (proj2 (read_cmd_others _ _))))
    | rewrite (proj1 (proj2 (proj2 (proj2 (read_cmd_others _ _)))))
    | rewrite (proj1 (proj2 (proj2 (proj2 (proj2 (read_cmd_others _ _))))))
    | rewrite (proj2 (proj2 (proj2 (proj2 (proj2 (read_cmd_others _ _))))))
    | rewrite (proj1 (read_comment_others _ _))
    | rewrite (proj1 (proj2 (read_comment_others _ _)))
    | rewrite (proj1 (proj2 (proj2 (read_comment_others _ _))))
    | rewrite (proj1 (proj2 (proj2 (proj2 (read_comment_others _ _)))))
    | rewrite (proj1 (proj2 (proj2 (proj2 (proj2 (read_comment_others _ _))))))
    | rewrite (proj2 (proj2 (proj2 (proj2 (proj2 (read_comment_others _ _))))))
    | rewrite (proj1 (read_genericName_others _ _))
    | rewrite (proj1 (proj2 (read_genericName_others _ _)))
    | rewrite (proj1 (proj2 (proj2 (read_genericName_others _ _))))
    | rewrite (proj1 (proj2 (proj2 (proj2 (read_genericName_others _ _)))))
    | rewrite (proj1 (proj2 (proj2 (proj2 (proj2 (read_genericName_others _ _))))))
    | rewrite (proj2 (proj2 (proj2 (proj2 (proj2 (read_genericName_others _ _))))))
    | rewrite (proj1 (read_name_others _ _))
    | rewrite (proj1 (proj2 (read_name_others _ _)))
    | rewrite (proj1 (proj2 (proj2 (read_name_others _ _))))
    | rewrite (proj1 (proj2 (proj2 (proj2 (read_name_others _ _)))))
    | rewrite (proj1 (proj2 (proj2 (proj2 (proj2 (read_name_others _ _))))))
    | rewrite (proj2 (proj2 (proj2 (proj2 (proj2 (read_name_others _ _)))))) ].

Lemma parse_line_fixed (a : Application) (line : string) :
  id (parse_line a line) = id a /\ count (parse_line a line) = count a.
Proof. rewrite parse_line_steps. split; other_tests; reflexivity. Qed.

Lemma parse_line_name (a : Application) (line : string) :
  name (parse_line a line)
  = if (name a =? "")%string && begins_with line "Name=" then after 5 line else name a.
Proof.
  rewrite parse_line_steps. other_tests. unfold read_name.
  now destruct ((name a =? "")%string && begins_with line "Name=").
Qed.

Lemma parse_line_genericName (a : Application) (line : string) :
  genericName (parse_line a line)
  = if (genericName a =? "")%string && begins_with line "GenericName="
    then after 12 line else genericName a.
Proof.
  rewrite parse_line_steps. other_tests.
  unfold read_genericName at 1. other_tests.
  destruct ((genericName a =? "")%string && begins_with line "GenericName=");
    cbn [genericName]; other_tests; reflexivity.
Qed.

Lemma parse_line_comment (a : Application) (line : string) :
  comment (parse_line a line)
  = if (comment a =? "")%string && begins_with line "Comment="
    then after 8 line else comment a.
Proof.
  rewrite parse_line_steps. other_tests.
  unfold read_comment at 1. other_tests.
  destruct ((comment a =? "")%string && begins_with line "Comment=");
    cbn [comment]; other_tests; reflexivity.
Qed.

Lemma parse_line_cmd (a : Application) (line : string) :
  cmd (parse_line a line)
  = if (cmd a =? "")%string && begins_with line "Exec=" then after 5 line else cmd a.
Proof.
  rewrite parse_line_steps. other_tests.
  unfold read_cmd at 1. other_tests.
  destruct (String.eqb_spec (cmd a) "") as [E|E]; cbn [andb];
    [|other_tests; reflexivity].
  destruct (begins_with line "Exec="); cbn [andb]; [|other_tests; reflexivity].
  destruct (String.eqb_spec (after 5 line) "") as [F|F]; cbn [negb cmd];
    other_tests; congruence.
Qed.

Section FirstValue.

Variable field : Application -> string.
Variable key : string.

Hypothesis step : forall a line,
  field (parse_line a line)
  = if (field a =? "")%string && begins_with line key
    then after (String.length key) line else field a.

Lemma fold_first_value (lines : list string) (a : Application) :
  field (fold_left parse_line lines a)
  = if (field a =? "")%string then first_value key lines else field a.
Proof.
  revert a. induction lines as [|line lines IH]; intros a; cbn [fold_left first_value].
  - destruct (String.eqb_spec (field a) ""); congruence.
  - rewrite IH, step, begins_with_prefix. unfold after.
    destruct (field a =? "")%string eqn:E; cbn [andb].
    + destruct (prefix key line); cbn [andb].
      * destruct (substring _ _ line =? "")%string; reflexivity.
      * now rewrite E.
    + now rewrite E.
Qed.

End FirstValue.

(** X4.  In the record that is built from a desktop entry, the id is the
    path of the file and the count is 0; the name, the generic name, the
    comment and the command are each the value of the first line of the file
    that begins with "Name=", "GenericName=", "Comment=" or "Exec=" and has
    something after it, and are empty when the file has no such line: later
    lines with the same key change nothing. *)
Theorem entry_fields_first_values (path content : string) :
  id (read_entry path content) = path
  /\ count (read_entry path content) = 0
  /\ name (read_entry path content)
     = first_value "Name=" (getlines "010" content)
  /\ genericName (read_entry path content)
     = first_value "GenericName=" (getlines "010" content)
  /\ comment (read_entry path content)
     = first_value "Comment=" (getlines "010" content)
  /\ cmd (read_entry path content)
     = first_value "Exec=" (getlines "010" content).
Proof.
  unfold read_entry. cbn [index_keywords id count name genericName comment cmd].
  set (start := mkApplication path "" "" "" "" [] 0).
  assert (F : forall lines a,
            id (fold_left parse_line lines a) = id a
            /\ count (fold_left parse_line lines a) = count a).
  { induction lines as [|l lines IH]; intros a; [now split|].
    cbn [fold_left]. destruct (IH (parse_line a l)) as [-> ->].
    apply parse_line_fixed. }
  destruct (F (getlines "010" content) start) as [-> ->].
  rewrite (fold_first_value name "Name=" parse_line_name).
  rewrite (fold_first_value genericName "GenericName=" parse_line_genericName).
  rewrite (fold_first_value comment "Comment=" parse_line_comment).
  rewrite (fold_first_value cmd "Exec=" parse_line_cmd).
  repeat split.
Qed.

Example editor_desktop_fields :
  name (read_entry "/e" editor_desktop) = "Text Editor"
  /\ cmd (read_entry "/e" editor_desktop) = "gedit %U"
  /\ keywords (read_entry "/e" editor_desktop)
     = [mkKeyword "plain" 1; mkKeyword "text" 1;
        mkKeyword "text" 1000; mkKeyword "editor" 1000; mkKeyword "" 1].
Proof. repeat split; vm_compute; reflexivity. Qed.

(** *** Keyword hints *)

Lemma parse_line_locked (a : Application) (line : string) :
  cmd a <> "" ->
  keywords (parse_line a line) = keywords a /\ cmd (parse_line a line) = cmd a.
Proof.
  intros H. apply String.eqb_neq in H.
  split.
  - rewrite parse_line_steps. unfold read_hints at 1. other_tests.
    unfold read_cmd at 1. other_tests. rewrite H. cbn [andb]. other_tests.
    rewrite H. cbn [andb]. other_tests. reflexivity.
  - rewrite parse_line_cmd, H. reflexivity.
Qed.

Lemma fold_parse_line_locked (lines : list string) (a : Application) :
  cmd a <> "" ->
  keywords (fold_left parse_line lines a) = keywords a
  /\ cmd (fold_left parse_line lines a) = cmd a.
Proof.
  revert a. induction lines as [|l lines IH]; intros a H; [now split|].
  cbn [fold_left]. destruct (parse_line_locked a l H) as [K C].
  destruct (IH (parse_line a l)) as [-> ->]; [congruence | now split].
Qed.

Lemma after_key (key v : string) :
  after (String.length key) (key ++ v) = v.
Proof.
  unfold after. rewrite str_length_append.
  replace (String.length key + String.length v - String.length key)%nat
    with (String.length v) by lia.
  apply substring_back.
Qed.

(** X5.  Keyword hints count only before the command.  A line
    "Keywords=v" read while no command is recorded appends the words of the
    lower-cased [v], cut at spaces, with weight 1; once a line "Exec=" with
    a value has been read, no later line changes the keyword hints or the
    command. *)
Theorem hints_end_at_exec (a : Application) (v : string) (later : list string) :
  (cmd a = "" ->
   keywords (parse_line a ("Keywords=" ++ v))
   = (keywords a ++ List.map (fun w => mkKeyword w 1) (getlines " " (lowercase v)))%list)
  /\ (cmd a <> "" ->
      keywords (fold_left parse_line later a) = keywords a
      /\ cmd (fold_left parse_line later a) = cmd a).
Proof.
  split; [|apply fold_parse_line_locked].
  intros H.
  assert (E : begins_with ("Keywords=" ++ v) "Exec=" = false)
    by (rewrite begins_with_prefix; reflexivity).
  assert (K : begins_with ("Keywords=" ++ v) "Keywords=" = true).
  { rewrite begins_with_prefix. apply prefix_occurs. exists "", v. now split. }
  assert (C : cmd (read_cmd ("Keywords=" ++ v)
                     (read_comment ("Keywords=" ++ v)
                        (read_genericName ("Keywords=" ++ v)
                           (read_name ("Keywords=" ++ v) a)))) = "").
  { unfold read_cmd at 1. other_tests. rewrite H, E. cbn [andb String.eqb].
    other_tests. exact H. }
  rewrite parse_line_steps. unfold read_hints. rewrite C, K.
  cbn [andb String.eqb keywords]. other_tests.
  change (after 9 ("Keywords=" ++ v))
    with (after (String.length "Keywords=") ("Keywords=" ++ v)).
  rewrite after_key. reflexivity.
Qed.

Lemma hints_end_at_exec_witness :
  keywords (fold_left parse_line ["Keywords=late hint"; "Exec=other"]
              (mkApplication "/e" "" "" "" "gedit" [mkKeyword "plain" 1] 0))
  = [mkKeyword "plain" 1].
Proof.
  apply (hints_end_at_exec
           (mkApplication "/e" "" "" "" "gedit" [mkKeyword "plain" 1] 0) ""
           ["Keywords=late hint"; "Exec=other"]).
  discriminate.
Defined.

(** *** The case of the keywords *)

Lemma lower_case_append (a b : string) :
  lower_case a -> lower_case b -> lower_case (a ++ b).
Proof. unfold lower_case. intros A B. now rewrite lowercase_append, A, B. Qed.

Lemma getline_loop_lower (d : ascii) (s word w : string) :
  lower_case word ->
  In w (getline_loop d (lowercase s) word) -> lower_case w.
Proof.
  revert word. induction s as [|c s IH]; intros word L H.
  - cbn in H. destruct word; [destruct H | destruct H as [<-|[]]; exact L].
  - change (lowercase (String c s)) with (String (Str.tolower c) (lowercase s)) in H.
    cbn [getline_loop] in H. destruct (Ascii.eqb (Str.tolower c) d).
    + destruct H as [<-|H]; [exact L | now apply (IH "")].
    + apply (IH _) in H; [exact H|]. apply lower_case_append; [exact L|].
      unfold lower_case.
      change (lowercase (String (Str.tolower c) ""))
        with (String (Str.tolower (Str.tolower c)) "").
      now rewrite tolower_idempotent.
Qed.

Lemma push_words_lower (w : Z) (s : string) (kws : list Keyword) :
  Forall (fun k => lower_case (word k)) kws ->
  Forall (fun k => lower_case (word k)) (push_words w (getlines " " (lowercase s)) kws).
Proof.
  intros F. unfold push_words. apply Forall_app. split; [exact F|].
  apply Forall_forall. intros k H. apply in_map_iff in H.
  destruct H as (x & <- & H). cbn [word].
  now apply (getline_loop_lower " " s "" x).
Qed.

Lemma parse_line_lower (a : Application) (line : string) :
  Forall (fun k => lower_case (word k)) (keywords a) ->
  Forall (fun k => lower_case (word k)) (keywords (parse_line a line)).
Proof.
  intros F. unfold parse_line.
  repeat match goal with
         | |- context [if ?c then _ else _] => destruct c
         end;
    cbn [keywords]; try exact F; now apply push_words_lower.
Qed.

(** X6.  Every keyword of a record built from a desktop entry is in
    lower case: [lowercase] leaves its text as it is.  The query is matched
    in its lower-cased form, so the case of the entry and of the typed text
    plays no part in the search. *)
Theorem entry_keywords_lower_case (path content : string) (k : Keyword) :
  In k (keywords (read_entry path content)) -> lower_case (word k).
Proof.
  revert k. apply Forall_forall. unfold read_entry.
  assert (G : forall lines a, Forall (fun k => lower_case (word k)) (keywords a) ->
                Forall (fun k => lower_case (word k))
                       (keywords (fold_left parse_line lines a))).
  { induction lines as [|l lines IH]; intros a F; [exact F|].
    cbn [fold_left]. apply IH. now apply parse_line_lower. }
  cbn [index_keywords keywords]. unfold name_words, description_words.
  apply push_words_lower. apply push_words_lower. apply G. constructor.
Qed.

Lemma entry_keywords_lower_case_witness :
  lower_case (word (mkKeyword "editor" 1000)).
Proof.
  apply (entry_keywords_lower_case "/e" editor_desktop (mkKeyword "editor" 1000)).
  vm_compute. tauto.
Defined.

(** ** onKeyPress: the selection *)

Lemma int_wrap_range (z : Z) : Int.in_range (Int.wrap z).
Proof.
  unfold Int.in_range, Int.wrap, Int.min_value, Int.max_value.
  pose proof (Z.mod_pos_bound (z + 2147483648) 4294967296). lia.
Qed.

(** X7.  With [n >= 1] results and the selection at an index of them,
    the Up key moves the selection to the index before, and from 0 to the
    last index [n - 1]; the Down key moves it to the index after, and from
    the last index to 0.  Neither changes the query or the cursor. *)
Theorem selection_wraps (s : State) (txt : string) (len : Z) :
  (1 <= List.length (results s))%nat ->
  0 <= selected s < Z.of_nat (List.length (results s)) ->
  Z.of_nat (List.length (results s)) <= Int.max_value ->
  exists up down,
    onKeyPress (mkKeyEvent XK_Up txt len) s = Ok (Running up)
    /\ onKeyPress (mkKeyEvent XK_Down txt len) s = Ok (Running down)
    /\ selected up
       = (if selected s =? 0 then Z.of_nat (List.length (results s)) - 1
          else selected s - 1)
    /\ selected down
       = (if selected s =? Z.of_nat (List.length (results s)) - 1 then 0
          else selected s + 1)
    /\ 0 <= selected up < Z.of_nat (List.length (results s))
    /\ 0 <= selected down < Z.of_nat (List.length (results s))
    /\ query up = query s /\ query down = query s
    /\ cursor up = cursor s /\ cursor down = cursor s.
Proof.
  intros N B M. unfold onKeyPress, key_switch. cbn [keysym bind].
  do 2 eexists. split; [reflexivity|]. split; [reflexivity|].
  cbn [selected query cursor set_selected].
  assert (U : Int.wrap (if 0 <? selected s
                        then Size.wrap (Int.sub (selected s) 1)
                        else Size.wrap (Z.of_nat (List.length (results s)) - 1))
              = if selected s =? 0 then Z.of_nat (List.length (results s)) - 1
                else selected s - 1).
  { destruct (Z.eqb_spec (selected s) 0) as [E|E].
    - rewrite E. cbn [Z.ltb Z.compare].
      rewrite size_wrap_small by range. apply int_wrap_in_range. range.
    - assert (P : (0 <? selected s) = true) by (apply Z.ltb_lt; lia). rewrite P.
      unfold Int.sub. rewrite (int_wrap_in_range (selected s - 1)) by range.
      rewrite size_wrap_small by range. apply int_wrap_in_range. range. }
  assert (D : (if Size.wrap (selected s)
                  <? Size.wrap (Z.of_nat (List.length (results s)) - 1)
               then Int.add (selected s) 1 else 0)
              = if selected s =? Z.of_nat (List.length (results s)) - 1 then 0
                else selected s + 1).
  { rewrite !size_wrap_small by range.
    destruct (Z.eqb_spec (selected s) (Z.of_nat (List.length (results s)) - 1)) as [E|E].
    - rewrite E, Z.ltb_irrefl. reflexivity.
    - assert (P : (selected s <? Z.of_nat (List.length (results s)) - 1) = true)
        by (apply Z.ltb_lt; lia).
      rewrite P. apply int_wrap_in_range. range. }
  rewrite U, D. repeat split; try reflexivity.
  all: destruct (Z.eqb_spec (selected s) 0);
       destruct (Z.eqb_spec (selected s) (Z.of_nat (List.length (results s)) - 1));
       lia.
Qed.

Lemma selection_wraps_witness :
  exists up down,
    onKeyPress (mkKeyEvent XK_Up "" 0)
      (mkState "a" "a" 0 1 [mkResult 0 9; mkResult 1 8; mkResult 2 7])
    = Ok (Running up)
    /\ onKeyPress (mkKeyEvent XK_Down "" 0)
         (mkState "a" "a" 0 1 [mkResult 0 9; mkResult 1 8; mkResult 2 7])
       = Ok (Running down)
    /\ selected up = 2 /\ selected down = 1.
Proof.
  destruct (selection_wraps
              (mkState "a" "a" 0 1 [mkResult 0 9; mkResult 1 8; mkResult 2 7]) "" 0)
    as (up & down & U & D & SU & SD & _).
  - cbn. lia.
  - cbn. lia.
  - unfold Int.max_value. cbn. lia.
  - exists up, down. repeat split; assumption.
Defined.

Lemma key_switch_selected_range (ev : KeyEvent) (s s1 : State) :
  Int.in_range (selected s) ->
  key_switch ev s = Ok (Running s1) ->
  Int.in_range (selected s1).
Proof.
  intros R. unfold key_switch.
  destruct (keysym ev);
    repeat match goal with
           | |- context [if ?c then _ else _] => destruct c
           | |- context [bind ?r _] => destruct r; cbn [bind]
           end;
    intros H; try discriminate; injection H as <-;
    cbn [selected set_selected set_cursor set_query];
    try exact R; try apply int_wrap_range.
  unfold Int.in_range, Int.min_value, Int.max_value. lia.
Qed.

(** X8.  After every key press that does not end the session, whatever
    the key and the state before it, [queryi] is the lower-cased query,
    [results] is what [search] gives for it (at most ten), and the selection
    is an index of [results], or 0 when there is no result: the out-of-range
    values that the Up and Down keys produce with no result (-1 and 1) are
    put back to 0 by the event loop. *)
Theorem selection_valid_after_key
    (sort : list Result -> list Result) (apps : list Application)
    (ev : KeyEvent) (s s' : State) :
  Int.in_range (selected s) ->
  key_press sort apps ev s = Ok (Running s') ->
  queryi s' = lowercase (query s')
  /\ results s' = search sort (queryi s') apps
  /\ (List.length (results s') <= 10)%nat
  /\ 0 <= selected s'
  /\ selected s' < Z.max 1 (Z.of_nat (List.length (results s'))).
Proof.
  intros R H. unfold key_press, onKeyPress in H.
  destruct (key_switch ev s) as [o|] eqn:K; [|discriminate].
  cbn [bind] in H. destruct o as [s1| |]; cbn [bind] in H; try discriminate.
  injection H as <-. cbn [queryi query results selected].
  pose proof (key_switch_selected_range ev s s1 R K) as R1.
  split; [reflexivity|]. split; [reflexivity|].
  pose proof (search_at_most_ten sort (lowercase (query s1)) apps) as L.
  split; [exact L|].
  destruct (Z.of_nat (List.length (search sort (lowercase (query s1)) apps))
            <=? Size.wrap (selected s1)) eqn:C.
  - lia.
  - apply Z.leb_gt in C. unfold Size.wrap, Size.modulus in C.
    unfold Int.in_range, Int.min_value, Int.max_value in R1.
    destruct (Z_lt_le_dec (selected s1) 0) as [Neg|Pos].
    + exfalso.
      assert (E : selected s1 mod 18446744073709551616
                  = selected s1 + 18446744073709551616).
      { symmetry. apply (Z.mod_unique _ _ (-1)); lia. }
      lia.
    + rewrite Z.mod_small in C by lia. lia.
Qed.

Lemma selection_valid_after_key_witness :
  0 <= selected (mkState "" "" 0 0 [])
  /\ selected (mkState "" "" 0 0 [])
     < Z.max 1 (Z.of_nat (List.length (results (mkState "" "" 0 0 [])))).
Proof.
  assert (R : Int.in_range (selected (mkState "" "" 0 0 []))).
  { unfold Int.in_range, Int.min_value, Int.max_value. cbn. lia. }
  assert (H : key_press insertion_sort [firefox] (mkKeyEvent XK_Up "" 0)
                (mkState "" "" 0 0 []) = Ok (Running (mkState "" "" 0 0 []))).
  { vm_compute. reflexivity. }
  exact (proj2 (proj2 (proj2
           (selection_valid_after_key insertion_sort [firefox]
              (mkKeyEvent XK_Up "" 0) (mkState "" "" 0 0 []) (mkState "" "" 0 0 [])
              R H)))).
Defined.

Example up_without_results :
  onKeyPress (mkKeyEvent XK_Up "" 0) (mkState "" "" 0 0 [])
  = Ok (Running (mkState "" "" (-1) 0 []))
  /\ key_press insertion_sort [firefox] (mkKeyEvent XK_Up "" 0) (mkState "" "" 0 0 [])
     = Ok (Running (mkState "" "" 0 0 [])).
Proof. split; vm_compute; reflexivity. Qed.
(** ** onKeyPress: the edits *)

Lemma erase_middle (front back : string) (x : ascii) :
  Str.erase (front ++ String x back) (Str.size front) 1 = Ok (front ++ back).
Proof.
  unfold Str.erase, Str.size. rewrite str_length_append. cbn [String.length].
  assert (C : (Z.of_nat (String.length front + S (String.length back))
               <? Z.of_nat (String.length front)) = false) by (apply Z.ltb_ge; lia).
  rewrite C. cbv zeta. f_equal.
  replace (Z.to_nat (Z.of_nat (String.length front))) with (String.length front) by lia.
  rewrite substring_front. f_equal.
  replace (Z.min 1 (Z.of_nat (String.length front + S (String.length back))
                    - Z.of_nat (String.length front))) with 1 by lia.
  replace (Z.to_nat (Z.of_nat (String.length front) + 1))
    with (String.length (front ++ String x "")) by (rewrite str_length_append; cbn; lia).
  replace (Z.to_nat (Z.of_nat (String.length front + S (String.length back))
                     - Z.of_nat (String.length front) - 1))
    with (String.length back) by lia.
  replace (front ++ String x back) with ((front ++ String x "") ++ back)
    by (now rewrite str_append_assoc).
  apply substring_back.
Qed.

Lemma substr_front (front back : string) :
  Str.substr (front ++ back) 0 (Str.size front) = Ok front.
Proof.
  unfold Str.substr, Str.size. rewrite str_length_append.
  assert (C : (Z.of_nat (String.length front + String.length back) <? 0) = false)
    by (apply Z.ltb_ge; lia).
  rewrite C. f_equal.
  replace (Z.to_nat (Z.min (Z.of_nat (String.length front))
                       (Z.of_nat (String.length front + String.length back) - 0)))
    with (String.length front) by lia.
  apply substring_front.
Qed.

Lemma substr_back (front back : string) :
  Str.substr (front ++ back) (Str.size front) (Str.size (front ++ back)) = Ok back.
Proof.
  unfold Str.substr, Str.size. rewrite str_length_append.
  assert (C : (Z.of_nat (String.length front + String.length back)
               <? Z.of_nat (String.length front)) = false) by (apply Z.ltb_ge; lia).
  rewrite C. f_equal.
  replace (Z.to_nat (Z.min (Z.of_nat (String.length front + String.length back))
                       (Z.of_nat (String.length front + String.length back)
                        - Z.of_nat (String.length front))))
    with (String.length back) by lia.
  replace (Z.to_nat (Z.of_nat (String.length front))) with (String.length front) by lia.
  apply substring_back.
Qed.

Lemma insert_char_step (s : State) (front back : string) (c : ascii) :
  query s = front ++ back ->
  cursor s = Str.size front ->
  c <> zero ->
  Str.size (query s) < Int.max_value ->
  onKeyPress (key_of (InsertChar c)) s
  = Ok (Running (mkState (front ++ String c back)
                         (lowercase (front ++ String c back))
                         (selected s) (Str.size front + 1) (results s))).
Proof.
  intros Q C N L. unfold onKeyPress, key_switch.
  cbn [key_of keysym textlength text]. rewrite (c_str_char c N).
  cbn [Z.eqb Pos.eqb]. rewrite C.
  assert (P : 0 <= Str.size front <= Str.size (query s)).
  { rewrite Q. unfold Str.size. rewrite str_length_append. lia. }
  rewrite size_wrap_small by range.
  rewrite Q, substr_front, substr_back. cbn [bind set_query query selected cursor results].
  unfold Int.add. rewrite int_wrap_in_range by range. reflexivity.
Qed.

Lemma backspace_step (s : State) (front back : string) (x : ascii) :
  query s = front ++ String x back ->
  cursor s = Str.size front + 1 ->
  cursor s <= Int.max_value ->
  onKeyPress (key_of Backspace) s
  = Ok (Running (mkState (front ++ back) (lowercase (front ++ back))
                         (selected s) (Str.size front) (results s))).
Proof.
  intros Q C L. unfold onKeyPress, key_switch. cbn [key_of keysym].
  assert (P : (0 <? cursor s) = true) by (apply Z.ltb_lt; range). rewrite P.
  unfold Int.sub. rewrite int_wrap_in_range by range.
  replace (cursor s - 1) with (Str.size front) by lia.
  rewrite size_wrap_small by range.
  rewrite Q, erase_middle. reflexivity.
Qed.

Lemma delete_step (s : State) (front back : string) (x : ascii) :
  query s = front ++ String x back ->
  cursor s = Str.size front ->
  cursor s <= Int.max_value ->
  onKeyPress (key_of Delete) s
  = Ok (Running (mkState (front ++ back) (lowercase (front ++ back))
                         (selected s) (Str.size front) (results s))).
Proof.
  intros Q C L. unfold onKeyPress, key_switch. cbn [key_of keysym].
  rewrite size_wrap_small by range. rewrite C.
  assert (P : (Str.size front <? Str.size (query s)) = true).
  { apply Z.ltb_lt. rewrite Q. unfold Str.size. rewrite str_length_append.
    cbn [String.length]. lia. }
  rewrite P, Q, erase_middle. reflexivity.
Qed.

(** X9.  A key that yields one character of text puts it into the query
    at the cursor and moves the cursor one place to the right: with the
    query [front ++ back] and the cursor after [front], the query becomes
    [front ++ c ++ back]; [queryi] follows, selection and results stay. *)
Theorem insert_at_cursor (s : State) (front back : string) (c : ascii) :
  query s = front ++ back ->
  cursor s = Str.size front ->
  c <> zero ->
  Str.size (query s) < Int.max_value ->
  onKeyPress (key_of (InsertChar c)) s
  = Ok (Running (mkState (front ++ String c back)
                         (lowercase (front ++ String c back))
                         (selected s) (cursor s + 1) (results s))).
Proof. intros Q C N L. rewrite C. now apply insert_char_step. Qed.

Lemma insert_at_cursor_witness :
  onKeyPress (key_of (InsertChar "I")) editing_fox
  = Ok (Running (mkState "fIox" "fiox" 0 2 [])).
Proof.
  apply (insert_at_cursor editing_fox "f" "ox" "I"%char).
  - reflexivity.
  - reflexivity.
  - discriminate.
  - unfold Int.max_value. cbn. lia.
Defined.

(** X10.  The BackSpace key takes out the character before the cursor
    and moves the cursor one place to the left; with the cursor at 0 it
    changes neither the query nor the cursor. *)
Theorem backspace_before_cursor (s : State) :
  (forall front back x,
     query s = front ++ String x back ->
     cursor s = Str.size front + 1 ->
     cursor s <= Int.max_value ->
     onKeyPress (key_of Backspace) s
     = Ok (Running (mkState (front ++ back) (lowercase (front ++ back))
                            (selected s) (cursor s - 1) (results s))))
  /\ (cursor s = 0 ->
      onKeyPress (key_of Backspace) s
      = Ok (Running (mkState (query s) (lowercase (query s))
                             (selected s) 0 (results s)))).
Proof.
  split.
  - intros front back x Q C L. rewrite (backspace_step s front back x Q C L).
    do 3 f_equal. lia.
  - intros C. unfold onKeyPress, key_switch. cbn [key_of keysym].
    assert (P : (0 <? cursor s) = false) by (apply Z.ltb_ge; lia).
    rewrite P. cbn [bind]. now rewrite C.
Qed.

Lemma backspace_before_cursor_witness :
  onKeyPress (key_of Backspace) editing_fox = Ok (Running (mkState "ox" "ox" 0 0 [])).
Proof.
  apply (proj1 (backspace_before_cursor editing_fox) "" "ox" "f"%char).
  - reflexivity.
  - reflexivity.
  - unfold Int.max_value. cbn. lia.
Defined.

(** X11.  The Delete key takes out the character at the cursor and
    leaves the cursor where it is; with the cursor at the end of the query
    it changes neither. *)
Theorem delete_at_cursor (s : State) :
  cursor s <= Int.max_value ->
  (forall front back x,
     query s = front ++ String x back ->
     cursor s = Str.size front ->
     onKeyPress (key_of Delete) s
     = Ok (Running (mkState (front ++ back) (lowercase (front ++ back))
                            (selected s) (cursor s) (results s))))
  /\ (cursor s = Str.size (query s) ->
      onKeyPress (key_of Delete) s
      = Ok (Running (mkState (query s) (lowercase (query s))
                             (selected s) (cursor s) (results s)))).
Proof.
  intros L. split.
  - intros front back x Q C. rewrite (delete_step s front back x Q C L).
    now rewrite C.
  - intros C. unfold onKeyPress, key_switch. cbn [key_of keysym].
    rewrite size_wrap_small by (unfold Str.size in *; range).
    assert (P : (cursor s <? Str.size (query s)) = false) by (apply Z.ltb_ge; lia).
    rewrite P. reflexivity.
Qed.

Lemma delete_at_cursor_witness :
  onKeyPress (key_of Delete) editing_fox = Ok (Running (mkState "fx" "fx" 0 1 [])).
Proof.
  apply (proj1 (delete_at_cursor editing_fox
                  ltac:(unfold Int.max_value; cbn; lia)) "f" "x" "o"%char);
    reflexivity.
Defined.

(** X12.  BackSpace undoes an insertion: after a character of text and
    then BackSpace, the query and the cursor are what they were. *)
Theorem backspace_undoes_insert (s : State) (c : ascii) :
  cursor_in_bounds s ->
  c <> zero ->
  Str.size (query s) < Int.max_value ->
  exists s1,
    onKeyPress (key_of (InsertChar c)) s = Ok (Running s1)
    /\ onKeyPress (key_of Backspace) s1
       = Ok (Running (mkState (query s) (lowercase (query s))
                              (selected s) (cursor s) (results s))).
Proof.
  intros [B0 B1] N L.
  set (n := Z.to_nat (cursor s)).
  set (front := substring 0 n (query s)).
  set (back := substring n (String.length (query s) - n) (query s)).
  assert (Ln : (n <= String.length (query s))%nat) by (unfold n, Str.size in *; lia).
  assert (Lf : String.length front = n) by (apply substring_length; lia).
  assert (Q : query s = front ++ back).
  { clear - Ln. unfold front, back. generalize (query s) as q, n as m. clear.
    intros q. induction q as [|x q IH]; intros m; destruct m as [|m]; cbn.
    - reflexivity.
    - reflexivity.
    - now rewrite substring_whole.
    - now rewrite <- IH. }
  assert (C : cursor s = Str.size front) by (unfold Str.size; rewrite Lf; unfold n; lia).
  eexists. split; [apply (insert_char_step s front back c Q C N L)|].
  rewrite (backspace_step _ front back c); cbn [query cursor selected results].
  - rewrite <- Q, <- C. reflexivity.
  - reflexivity.
  - reflexivity.
  - range.
Qed.

Lemma backspace_undoes_insert_witness :
  exists s1,
    onKeyPress (key_of (InsertChar "I")) editing_fox = Ok (Running s1)
    /\ onKeyPress (key_of Backspace) s1
       = Ok (Running (mkState "fox" "fox" 0 1 [])).
Proof.
  apply (backspace_undoes_insert editing_fox "I"%char).
  - unfold cursor_in_bounds. cbn. lia.
  - discriminate.
  - unfold Int.max_value. cbn. lia.
Defined.

(** ** render: the marked part of a name *)

Lemma substring_split (s : string) (n : nat) :
  (n <= String.length s)%nat ->
  s = substring 0 n s ++ substring n (String.length s - n) s.
Proof.
  revert n. induction s as [|x s IH]; intros n L; destruct n as [|n]; cbn.
  - reflexivity.
  - cbn in L. lia.
  - now rewrite substring_whole.
  - cbn in L. rewrite <- IH by lia. reflexivity.
Qed.

Lemma split_at (s : string) (n : nat) :
  (n <= String.length s)%nat ->
  exists a r, s = a ++ r /\ String.length a = n.
Proof.
  intros L. exists (substring 0 n s), (substring n (String.length s - n) s).
  split; [now apply substring_split | apply substring_length; lia].
Qed.

Lemma append_same_length (a1 r1 a2 r2 : string) :
  a1 ++ r1 = a2 ++ r2 -> String.length a1 = String.length a2 ->
  a1 = a2 /\ r1 = r2.
Proof.
  revert a2. induction a1 as [|x a1 IH]; intros [|y a2] E L; try discriminate.
  - now split.
  - cbn in E, L. injection E as -> E. destruct (IH a2 E) as [-> ->]; [lia|].
    now split.
Qed.

Lemma substr_mid (a b c : string) :
  Str.substr (a ++ b ++ c) (Str.size a) (Str.size b) = Ok b.
Proof.
  unfold Str.substr, Str.size. rewrite !str_length_append.
  assert (C : (Z.of_nat (String.length a + (String.length b + String.length c))
               <? Z.of_nat (String.length a)) = false) by (apply Z.ltb_ge; lia).
  rewrite C. f_equal.
  replace (Z.to_nat (Z.min (Z.of_nat (String.length b))
             (Z.of_nat (String.length a + (String.length b + String.length c))
              - Z.of_nat (String.length a))))
    with (String.length b) by lia.
  replace (Z.to_nat (Z.of_nat (String.length a))) with (String.length a) by lia.
  clear C. induction a as [|x a IH]; cbn [append String.length substring].
  - apply substring_front.
  - exact IH.
Qed.

Lemma substr_from_end (a c : string) :
  Str.substr_from (a ++ c) (Str.size a) = Ok c.
Proof.
  unfold Str.substr_from, Str.size. rewrite str_length_append.
  assert (C : (Z.of_nat (String.length a + String.length c)
               <? Z.of_nat (String.length a)) = false) by (apply Z.ltb_ge; lia).
  rewrite C. f_equal.
  replace (Z.to_nat (Z.of_nat (String.length a + String.length c)
                     - Z.of_nat (String.length a)))
    with (String.length c) by lia.
  replace (Z.to_nat (Z.of_nat (String.length a))) with (String.length a) by lia.
  apply substring_back.
Qed.

Lemma c_str_text (s : string) : Str.mem zero s = false -> Str.c_str s = s.
Proof.
  induction s as [|c s IH]; intros M; [reflexivity|].
  apply mem_cons in M. destruct M as [N M]. cbn [Str.c_str].
  destruct (Ascii.eqb_spec c zero) as [E|_]; [congruence|]. now rewrite IH.
Qed.

(** X13.  The name (or the comment) of a result, a text without NUL byte,
    is drawn in pieces that put together give the text as it is.  When the
    lower-cased text does not contain the lower-cased query there is one
    plain piece; otherwise there are three, the marked one begins where the
    query first occurs in the lower-cased text, has the length of the query
    and is the query up to the case of its letters.  No [substr] throws. *)
Theorem pieces_cover (shown query : string) :
  Str.size shown <= Int.max_value ->
  Str.mem zero shown = false ->
  (~ contains (lowercase shown) (lowercase query) ->
   pieces shown query (lowercase query) = Ok [(Plain, shown)])
  /\ (forall m, first_occurrence (lowercase query) (lowercase shown) m ->
      exists a b c,
        pieces shown query (lowercase query)
        = Ok [(Plain, a); (Marked, b); (Plain, c)]
        /\ shown = a ++ b ++ c
        /\ String.length a = m
        /\ lowercase b = lowercase query).
Proof.
  intros L Z. split.
  - intros N. unfold pieces, Str.find. rewrite (find_at_absent _ _ N).
    cbn -[Str.c_str]. now rewrite c_str_text.
  - intros m F.
    destruct F as [O Min]. pose proof (occurs_at_length _ _ _ O) as B.
    rewrite !lowercase_length in B.
    destruct (split_at shown m) as (a & r & E1 & La); [lia|].
    destruct (split_at r (String.length query)) as (b & c & E2 & Lb).
    { rewrite E1, str_length_append in B. lia. }
    exists a, b, c. subst r.
    assert (Low : lowercase b = lowercase query).
    { destruct O as (A & R & E & LA).
      rewrite E1, !lowercase_append in E.
      destruct (append_same_length _ _ _ _ E) as [_ E'];
        [rewrite lowercase_length; lia|].
      apply (append_same_length _ _ _ _ E'). rewrite !lowercase_length. lia. }
    split; [|now repeat split].
    unfold pieces, Str.find. rewrite (find_at_first _ _ m (conj O Min)).
    assert (M : Z.of_nat m <= Int.max_value) by range.
    destruct (position_as_int m M) as [W1 W2]. rewrite W2, W1.
    rewrite size_wrap_small by range.
    assert (Sa : Z.of_nat m = Str.size a) by (unfold Str.size; lia).
    assert (Sq : Str.size query = Str.size b) by (unfold Str.size; lia).
    rewrite E1 in Z. apply mem_append in Z. destruct Z as [Za Z].
    apply mem_append in Z. destruct Z as [Zb Zc].
    rewrite E1, Sa, Sq, substr_front, substr_mid. cbn [bind].
    rewrite size_wrap_small.
    + replace (Str.size a + Str.size b) with (Str.size (a ++ b))
        by (unfold Str.size; rewrite str_length_append; lia).
      rewrite <- str_append_assoc, substr_from_end. cbn [bind].
      now rewrite !c_str_text.
    + rewrite E1 in L. unfold Str.size in *. rewrite !str_length_append in L. range.
Qed.

Lemma pieces_cover_witness :
  pieces "GNU Image Editor" "zip" (lowercase "zip") = Ok [(Plain, "GNU Image Editor")].
Proof.
  apply (proj1 (pieces_cover "GNU Image Editor" "zip"
                  ltac:(unfold Int.max_value; cbn; lia) eq_refl)).
  now apply (find_at_missing _ _ 0%nat).
Defined.

Example pieces_of_a_name :
  pieces "GNU Image Editor" "iMa" "ima"
  = Ok [(Plain, "GNU "); (Marked, "Ima"); (Plain, "ge Editor")].
Proof. vm_compute. reflexivity. Qed.

(** ** writeConfig and readConfig: the saved file *)

Lemma digit_char_not (c : ascii) (d : Z) :
  digit c = None -> 0 <= d < 10 -> digit_char d <> c.
Proof.
  intros N H E. subst c. rewrite digit_of_digit_char in N by exact H. discriminate.
Qed.

Lemma digits_mem (c : ascii) (fuel : nat) (n : Z) (acc : string) :
  digit c = None -> 0 <= n ->
  Str.mem c acc = false -> Str.mem c (digits fuel n acc) = false.
Proof.
  intros N. revert n acc. induction fuel as [|fuel IH]; intros n acc H M.
  - cbn [digits]. apply mem_cons. split; [|exact M].
    intros E. apply (digit_char_not c (n mod 10) N); [apply Z.mod_pos_bound; lia | congruence].
  - cbn [digits].
    assert (M' : Str.mem c (String (digit_char (n mod 10)) acc) = false).
    { apply mem_cons. split; [|exact M].
      intros E. apply (digit_char_not c (n mod 10) N);
        [apply Z.mod_pos_bound; lia | congruence]. }
    destruct (n <? 10); [exact M'|]. apply IH; [apply Z.div_pos; lia | exact M'].
Qed.

Lemma decimal_mem (c : ascii) (n : Z) :
  digit c = None -> 0 <= n -> Str.mem c (decimal n) = false.
Proof.
  intros N H. unfold decimal.
  assert (C : (n <? 0) = false) by (apply Z.ltb_ge; lia). rewrite C.
  now apply digits_mem.
Qed.

Lemma getlines_write_styles (attrs : list StyleAttribute) (st : Style) (rest : string) :
  (forall t, Str.mem "010" (st t) = false) ->
  getlines "010" (write_styles attrs st ++ rest)
  = (style_records attrs st ++ getlines "010" rest)%list.
Proof.
  intros S. induction attrs as [|t attrs IH]; [reflexivity|].
  cbn [write_styles style_records]. destruct (st t =? DEFAULT_STYLE t)%string.
  - exact IH.
  - rewrite str_append_assoc, record_append.
    rewrite getlines_line.
    + cbn [List.app]. now rewrite IH.
    + destruct (attribute_name_facts t) as (_ & N & _).
      apply mem_record; [discriminate | exact N | apply S].
Qed.

Lemma getlines_write_counts (apps : list Application) (rest : string) :
  Forall (fun a => Str.mem "010" (id a) = false) apps ->
  getlines "010" (write_counts apps ++ rest)
  = (count_records apps ++ getlines "010" rest)%list.
Proof.
  intros F. induction F as [|a apps M F IH]; [reflexivity|].
  cbn [write_counts count_records]. destruct (0 <? count a) eqn:P.
  - rewrite str_append_assoc, record_append.
    rewrite getlines_line.
    + cbn [List.app]. now rewrite IH.
    + apply mem_record; [discriminate | exact M|].
      apply decimal_mem; [reflexivity | apply Z.ltb_lt in P; lia].
  - exact IH.
Qed.

Lemma saved_file_lines (cfg : Config) :
  (forall t, Str.mem "010" (style cfg t) = false) ->
  Forall (fun a => Str.mem "010" (id a) = false) (applications cfg) ->
  getlines "010" (writeConfig cfg)
  = ("[Style]" :: style_records all_attributes (style cfg)
     ++ "" :: "[Application Launch Counts]" :: count_records (applications cfg))%list.
Proof.
  intros S F. unfold writeConfig.
  rewrite newline_append, getlines_line by reflexivity. f_equal.
  rewrite getlines_write_styles by exact S. f_equal.
  rewrite newline_append, getlines_blank, newline_append.
  rewrite getlines_line by reflexivity. f_equal.
  rewrite <- (str_append_nil_r (write_counts (applications cfg))).
  rewrite getlines_write_counts by exact F.
  now rewrite app_nil_r.
Qed.

Lemma read_style_records (attrs : list StyleAttribute) (st base : Style)
    (apps : list Application) :
  (forall t, Str.mem "=" (st t) = false) ->
  read_lines (style_records attrs st) (mkConfig base apps)
  = Ok (mkConfig (load_styles attrs st base) apps).
Proof.
  intros S. revert base. induction attrs as [|t attrs IH]; intros base; [reflexivity|].
  cbn [style_records load_styles]. destruct (st t =? DEFAULT_STYLE t)%string.
  - apply IH.
  - cbn [read_lines]. destruct (attribute_name_facts t) as (F & _ & L).
    rewrite (read_line_record _ (st t) _ (S t) L), F, Z.eqb_refl.
    cbn [bind style applications]. rewrite assign_style_name. apply IH.
Qed.

Lemma load_styles_outside (attrs : list StyleAttribute) (st base : Style)
    (t : StyleAttribute) :
  ~ In t attrs -> load_styles attrs st base t = base t.
Proof.
  revert base. induction attrs as [|u attrs IH]; intros base N; [reflexivity|].
  cbn [load_styles]. rewrite IH by (intros H; apply N; now right).
  destruct (st u =? DEFAULT_STYLE u)%string; [reflexivity|].
  apply set_style_other. intros E. apply N. now left.
Qed.

Lemma load_styles_inside (attrs : list StyleAttribute) (st base : Style)
    (t : StyleAttribute) :
  NoDup attrs -> In t attrs ->
  load_styles attrs st base t
  = if (st t =? DEFAULT_STYLE t)%string then base t else st t.
Proof.
  revert base. induction attrs as [|u attrs IH]; intros base D H; [destruct H|].
  apply NoDup_cons_iff in D. destruct D as [N D]. cbn [load_styles].
  destruct H as [->|H].
  - rewrite load_styles_outside by exact N.
    destruct (st t =? DEFAULT_STYLE t)%string; [reflexivity | apply set_style_same].
  - rewrite (IH _ D H). destruct (st t =? DEFAULT_STYLE t)%string; [|reflexivity].
    destruct (st u =? DEFAULT_STYLE u)%string; [reflexivity|].
    apply set_style_other. intros E. subst. contradiction.
Qed.

Lemma all_attributes_complete (t : StyleAttribute) :
  NoDup all_attributes /\ In t all_attributes.
Proof.
  split.
  - unfold all_attributes.
    repeat (constructor; [cbn; intros H; repeat destruct H as [H|H]; discriminate || exact H|]).
    constructor.
  - destruct t; cbn; tauto.
Qed.

Lemma load_styles_all (st : Style) (t : StyleAttribute) :
  load_styles all_attributes st DEFAULT_STYLE t = st t.
Proof.
  destruct (all_attributes_complete t) as [D H].
  rewrite (load_styles_inside _ _ _ _ D H).
  destruct (String.eqb_spec (st t) (DEFAULT_STYLE t)); congruence.
Qed.

Lemma assign_count_middle (done rest : list Application) (a : Application)
    (val : string) :
  (forall x, In x done -> id x <> id a) ->
  assign_count (done ++ a :: rest) (id a) val
  = (c <- stoi val ;; Ok (done ++ set_count a c :: rest)%list).
Proof.
  intros N. induction done as [|x done IH]; cbn [List.app assign_count].
  - now rewrite String.eqb_refl.
  - assert (E : (id x =? id a)%string = false)
      by (apply String.eqb_neq; apply N; now left).
    rewrite E, IH by (intros y H; apply N; now right).
    destruct (stoi val); reflexivity.
Qed.

Lemma read_count_records (todo done : list Application) (st : Style) :
  NoDup (List.map id (done ++ todo)) ->
  Forall (fun a => path_id (id a) /\ 0 <= count a <= Int.max_value) todo ->
  read_lines (count_records todo) (mkConfig st (done ++ List.map fresh todo))
  = Ok (mkConfig st (done ++ todo)).
Proof.
  revert done. induction todo as [|a todo IH]; intros done D F; [reflexivity|].
  apply Forall_cons_iff in F. destruct F as [((C & _ & L) & R) F].
  assert (N : forall x, In x done -> id x <> id a).
  { intros x H E. rewrite map_app in D. cbn [List.map] in D.
    apply NoDup_remove_2 in D. apply D. apply in_or_app. left.
    rewrite <- E. now apply in_map. }
  assert (D' : NoDup (List.map id ((done ++ [a]) ++ todo)))
    by (now rewrite <- app_assoc).
  specialize (IH (done ++ [a])%list D' F). rewrite <- !app_assoc in IH.
  cbn [List.app] in IH. cbn [count_records List.map].
  destruct (0 <? count a) eqn:P.
  - cbn [read_lines].
    rewrite (read_line_record (id a) (decimal (count a)))
      by (try apply decimal_mem; try reflexivity; lia).
    rewrite (find_separator _ C L). cbn [applications style].
    change (id a) with (id (fresh a)) at 1.
    rewrite assign_count_middle by exact N.
    rewrite stoi_decimal by lia. cbn [bind]. unfold fresh at 1.
    rewrite set_count_back. exact IH.
  - apply Z.ltb_ge in P. unfold fresh at 1.
    rewrite set_count_zero by lia. exact IH.
Qed.

Lemma saved_config_loads (cfg : Config) :
  (forall t, storable (style cfg t)) ->
  NoDup (List.map id (applications cfg)) ->
  Forall (fun a => path_id (id a) /\ 0 <= count a <= Int.max_value)
         (applications cfg) ->
  readConfig (Some (writeConfig cfg))
             (mkConfig DEFAULT_STYLE (List.map fresh (applications cfg)))
  = Ok (mkConfig (load_styles all_attributes (style cfg) DEFAULT_STYLE)
                 (applications cfg)).
Proof.
  intros S D F. cbn [readConfig]. rewrite saved_file_lines.
  - cbn [read_lines]. rewrite read_line_plain by reflexivity. cbn [bind].
    rewrite read_lines_app.
    rewrite read_style_records by (intros t; apply S). cbn [bind read_lines].
    rewrite read_line_plain by reflexivity. cbn [bind].
    rewrite read_line_plain by reflexivity. cbn [bind].
    apply (read_count_records (applications cfg) [] _ D F).
  - intros t. apply S.
  - apply Forall_forall. intros a H. rewrite Forall_forall in F.
    apply (F a H).
Qed.

Lemma path_by_find (s : string) :
  Str.find_at s "/" 0 = Some 0%nat -> contains s "/".
Proof. intros H. exists 0%nat. now apply first_occurrence_by_find. Qed.

(** X14.  What [writeConfig] saves, [readConfig] reads back at the next
    start: for any style map whose values are storable (no '=', no line
    feed) and any applications with different ids that are paths and with
    counts from 0 to the largest [int], loading the saved text into the
    default style and the applications with count 0 gives every attribute
    its saved value and every application its saved count. *)
Theorem config_round_trip (cfg : Config) :
  (forall t, storable (style cfg t)) ->
  NoDup (List.map id (applications cfg)) ->
  Forall (fun a => path_id (id a) /\ 0 <= count a <= Int.max_value)
         (applications cfg) ->
  exists loaded,
    readConfig (Some (writeConfig cfg))
               (mkConfig DEFAULT_STYLE (List.map fresh (applications cfg)))
    = Ok loaded
    /\ (forall t, style loaded t = style cfg t)
    /\ applications loaded = applications cfg.
Proof.
  intros S D F. eexists. split; [now apply saved_config_loads|].
  split; [apply load_styles_all | reflexivity].
Qed.

Lemma config_round_trip_witness :
  exists loaded,
    readConfig (Some (writeConfig (mkConfig red_highlight [editor; firefox])))
               (mkConfig DEFAULT_STYLE (List.map fresh [editor; firefox]))
    = Ok loaded
    /\ (forall t, style loaded t = red_highlight t)
    /\ applications loaded = [editor; firefox].
Proof.
  apply (config_round_trip (mkConfig red_highlight [editor; firefox])).
  - intros t. destruct t; split; reflexivity.
  - cbn. repeat constructor; cbn; intros H;
      repeat destruct H as [H|H]; discriminate || exact H.
  - repeat constructor; try (apply path_by_find; reflexivity); try reflexivity;
      unfold Int.max_value; cbn; lia.
Defined.

(* ================================================================== *)
(** ** launch: the count that goes up, and the argument vector *)

Lemma count_launch_ids (n : nat) (apps : list Application) :
  List.map id (count_launch n apps) = List.map id apps.
Proof.
  revert n. induction apps as [|a apps IH]; intros n; [now destruct n|].
  destruct n; cbn [count_launch List.map]; [now destruct a|]. now rewrite IH.
Qed.

Lemma count_launch_fresh (n : nat) (apps : list Application) :
  List.map fresh (count_launch n apps) = List.map fresh apps.
Proof.
  revert n. induction apps as [|a apps IH]; intros n; [now destruct n|].
  destruct n; cbn [count_launch List.map]; [now destruct a|]. now rewrite IH.
Qed.

Lemma count_launch_nth (n : nat) (apps : list Application) (a : Application) :
  nth_error apps n = Some a ->
  nth_error (count_launch n apps) n = Some (set_count a (Int.add (count a) 1)).
Proof.
  revert n. induction apps as [|b apps IH]; intros n H.
  - destruct n; discriminate.
  - destruct n; cbn [count_launch nth_error] in *; [congruence | now apply IH].
Qed.

Lemma count_launch_other (n m : nat) (apps : list Application) :
  m <> n -> nth_error (count_launch n apps) m = nth_error apps m.
Proof.
  revert n m. induction apps as [|b apps IH]; intros n m H; [now destruct n|].
  destruct n, m; cbn [count_launch nth_error]; try reflexivity;
    [congruence | apply IH; congruence].
Qed.

Lemma count_launch_range (n : nat) (apps : list Application) (a : Application) :
  Forall (fun a => path_id (id a) /\ 0 <= count a <= Int.max_value) apps ->
  nth_error apps n = Some a -> count a < Int.max_value ->
  Forall (fun a => path_id (id a) /\ 0 <= count a <= Int.max_value)
         (count_launch n apps).
Proof.
  revert n. induction apps as [|b apps IH]; intros n F H L;
    [destruct n; constructor|].
  apply Forall_cons_iff in F. destruct F as [(P & R) F].
  destruct n; cbn [count_launch nth_error] in *.
  - assert (b = a) as -> by congruence. constructor; [|exact F].
    destruct a as [i nm g c x k cnt]. cbn [set_count id count] in *.
    split; [exact P|]. unfold Int.add. rewrite int_wrap_in_range; range.
  - constructor; [now split | now apply (IH n)].
Qed.

(** X15.  A launch is remembered: when the application at position [n]
    is launched, its count being below the largest [int], the file that
    [launch] writes gives at the next start (default style, counts 0) the
    same style, the count of that application raised by one, and every
    other application as it was. *)
Theorem launch_counted (n : nat) (cfg : Config) (a : Application) :
  (forall t, storable (style cfg t)) ->
  NoDup (List.map id (applications cfg)) ->
  Forall (fun a => path_id (id a) /\ 0 <= count a <= Int.max_value)
         (applications cfg) ->
  nth_error (applications cfg) n = Some a ->
  count a < Int.max_value ->
  exists loaded,
    readConfig (Some (snd (launch n cfg)))
               (mkConfig DEFAULT_STYLE (List.map fresh (applications cfg)))
    = Ok loaded
    /\ (forall t, style loaded t = style cfg t)
    /\ nth_error (applications loaded) n = Some (set_count a (count a + 1))
    /\ (forall m, m <> n ->
        nth_error (applications loaded) m = nth_error (applications cfg) m).
Proof.
  intros S D F H L. unfold launch. cbn [snd].
  set (cfg' := mkConfig (style cfg) (count_launch n (applications cfg))).
  assert (R : Int.add (count a) 1 = count a + 1).
  { assert (In a (applications cfg)) as I by (eapply nth_error_In; eauto).
    rewrite Forall_forall in F. destruct (F a I) as [_ C].
    unfold Int.add. rewrite int_wrap_in_range; range. }
  eexists. split.
  - rewrite <- (count_launch_fresh n (applications cfg)).
    apply (saved_config_loads cfg').
    + exact S.
    + cbn [cfg' applications]. now rewrite count_launch_ids.
    + cbn [cfg' applications]. now apply (count_launch_range n _ a).
  - cbn [style applications cfg']. split; [apply load_styles_all|]. split.
    + rewrite <- R. now apply count_launch_nth.
    + intros m N. now apply count_launch_other.
Qed.

Lemma launch_counted_witness :
  exists loaded,
    readConfig (Some (snd (launch 1 (mkConfig red_highlight [editor; firefox]))))
               (mkConfig DEFAULT_STYLE (List.map fresh [editor; firefox]))
    = Ok loaded
    /\ (forall t, style loaded t = red_highlight t)
    /\ nth_error (applications loaded) 1
       = Some (set_count firefox (count firefox + 1))
    /\ (forall m, m <> 1%nat ->
        nth_error (applications loaded) m = nth_error [editor; firefox] m).
Proof.
  apply (launch_counted 1 (mkConfig red_highlight [editor; firefox]) firefox).
  - intros t. destruct t; split; reflexivity.
  - cbn. repeat constructor; cbn; intros H;
      repeat destruct H as [H|H]; discriminate || exact H.
  - repeat constructor; try (apply path_by_find; reflexivity); try reflexivity;
      unfold Int.max_value; cbn; lia.
  - reflexivity.
  - unfold Int.max_value. cbn. lia.
Defined.

(** *** The argument vector *)

Lemma getline_loop_last (d : ascii) (x word : string) :
  Str.mem d x = false ->
  getline_loop d x word
  = match (word ++ x)%string with EmptyString => [] | w => [w] end.
Proof.
  revert word. induction x as [|c x IH]; intros word M.
  - cbn [getline_loop]. rewrite str_append_nil_r. now destruct word.
  - apply mem_cons in M. destruct M as [N M]. cbn [getline_loop].
    destruct (Ascii.eqb_spec c d) as [E|_]; [congruence|].
    rewrite IH by exact M. now rewrite str_append_assoc.
Qed.

Lemma getlines_spaced (ws : list string) :
  Forall (fun w => Str.mem " " w = false) ws ->
  last ws "-" <> "" ->
  getlines " " (spaced ws) = ws.
Proof.
  induction ws as [|w ws IH]; intros F L; [reflexivity|].
  apply Forall_cons_iff in F. destruct F as [M F].
  destruct ws as [|w' ws].
  - cbn [spaced last] in *. unfold getlines. rewrite getline_loop_last by exact M.
    cbn [append]. destruct w; [congruence | reflexivity].
  - change (spaced (w :: w' :: ws)) with (w ++ String " " (spaced (w' :: ws)))%string.
    rewrite getlines_line by exact M. f_equal. apply IH; [exact F|].
    exact L.
Qed.

(** X16.  The argument vector of the launched program: for a command made
    of words separated by single spaces, the last one not empty, the
    arguments are the words that do not begin with '%', in their order,
    each up to its first NUL byte; the field codes of the desktop entry
    (%u, %F, ...) are left out and every other word is passed on. *)
Theorem launch_args_words (ws : list string) :
  Forall (fun w => Str.mem " " w = false) ws ->
  last ws "-" <> "" ->
  launch_args (spaced ws)
  = List.map Str.c_str (filter (fun w => negb (prefix "%" w)) ws).
Proof.
  intros F L. unfold launch_args. rewrite getlines_spaced by assumption.
  f_equal. apply filter_ext. intros w. f_equal. apply (begins_with_prefix w "%").
Qed.

Lemma launch_args_words_witness :
  launch_args (spaced ["firefox"; "--new-window"; "%u"])
  = List.map Str.c_str
      (filter (fun w => negb (prefix "%" w)) ["firefox"; "--new-window"; "%u"]).
Proof.
  apply (launch_args_words ["firefox"; "--new-window"; "%u"]).
  - repeat constructor.
  - discriminate.
Defined.

Example launch_args_firefox :
  launch_args "firefox --new-window %u" = ["firefox"; "--new-window"].
Proof. reflexivity. Qed.

(** A command line with two spaces in a row hands the program an empty
    argument. *)
Example launch_args_empty_argument :
  launch_args "gimp  %U" = ["gimp"; ""].
Proof. reflexivity. Qed.

(* ================================================================== *)
(** ** readConfig changes counts only *)

Lemma assign_count_fresh (apps apps' : list Application) (key val : string) :
  assign_count apps key val = Ok apps' ->
  List.map fresh apps' = List.map fresh apps.
Proof.
  revert apps'. induction apps as [|a apps IH]; intros apps' H;
    cbn [assign_count] in H.
  - now inversion H.
  - destruct (id a =? key)%string.
    + destruct (stoi val) as [c|e]; cbn [bind] in H; [|discriminate].
      inversion H. cbn [List.map]. f_equal; now destruct a.
    + destruct (assign_count apps key val) as [rest|e]; cbn [bind] in H;
        [|discriminate].
      inversion H. cbn [List.map]. f_equal. now apply IH.
Qed.

Lemma read_line_fresh (line : string) (cfg cfg' : Config) :
  read_line line cfg = Ok cfg' ->
  List.map fresh (applications cfg') = List.map fresh (applications cfg).
Proof.
  unfold read_line. intros H.
  destruct (Size.wrap _ =? Size.npos); [now inversion H|].
  destruct (Str.substr line 0 _) as [key|e]; cbn [bind] in H; [|discriminate].
  destruct (Str.substr_from line _) as [val|e]; cbn [bind] in H; [|discriminate].
  destruct (Str.find key "/" =? Size.npos); [now inversion H|].
  destruct (assign_count (applications cfg) key val) as [apps|e] eqn:A;
    cbn [bind] in H; [|discriminate].
  inversion H. cbn [applications]. now apply (assign_count_fresh _ _ key val).
Qed.

Lemma read_lines_fresh (lines : list string) (cfg cfg' : Config) :
  read_lines lines cfg = Ok cfg' ->
  List.map fresh (applications cfg') = List.map fresh (applications cfg).
Proof.
  revert cfg. induction lines as [|line lines IH]; intros cfg H;
    cbn [read_lines] in H.
  - now inversion H.
  - destruct (read_line line cfg) as [mid|e] eqn:R; cbn [bind] in H;
      [|discriminate].
    rewrite (IH mid H). now apply (read_line_fresh line).
Qed.

(** X17.  Whatever the configuration file holds, a load that returns has
    changed nothing of the applications but counts: the vector has the same
    applications in the same order, each with its id, name, generic name,
    comment, command and keywords. *)
Theorem readConfig_only_counts (file : option string) (cfg loaded : Config) :
  readConfig file cfg = Ok loaded ->
  List.map fresh (applications loaded) = List.map fresh (applications cfg).
Proof.
  destruct file as [content|]; cbn [readConfig]; intros H.
  - now apply (read_lines_fresh (getlines "010" content)).
  - now inversion H.
Qed.

Lemma readConfig_only_counts_witness :
  List.map fresh
    (applications (mkConfig DEFAULT_STYLE [editor; set_count firefox 12]))
  = List.map fresh (applications (mkConfig DEFAULT_STYLE [editor; firefox])).
Proof.
  apply (readConfig_only_counts
           (Some ("shadow=#000000" ++ newline ++ id firefox ++ "=12abc" ++ newline
                  ++ "/no/such.desktop=x" ++ newline)%string)
           (mkConfig DEFAULT_STYLE [editor; firefox])
           (mkConfig DEFAULT_STYLE [editor; set_count firefox 12])).
  vm_compute. reflexivity.
Defined.
